(** * gocryptfs, package fusefrontend: the root node

    A shallow embedding of [internal/fusefrontend/root_node.go] and the
    properties of its methods: the open-flag policy, the name filter, the
    symlink-target decryption, the corruption report and the write-only-open
    workaround.

    Every method of [*RootNode] is a program over the calls it makes to the
    outside (system calls, the logger, the lock, the name and content
    helpers).  A program is run against a model of the backing store, or
    interleaved with the programs of other threads. *)

From Stdlib Require Import ZArith Lia Bool List.
From stdpp Require Import base option list strings gmap relations.

Local Open Scope string_scope.
Local Open Scope Z_scope.

(** ** Integer types of the target (linux/amd64) *)

(** [uint32(x)]: the value of [x] in 32 bits. *)
Definition uint32 (x : Z) : Z := x mod 2 ^ 32.

(** [int(x)] for a [uint32] [x]: [int] has 64 bits, so the conversion keeps
    the 32-bit value. *)
Definition int_of_uint32 (x : Z) : Z := uint32 x.

(** The operator [&^] (bit clear). *)
Definition and_not (a b : Z) : Z := Z.ldiff a b.

(** ** Constants of the packages the file imports *)

Module syscall.
(** Package [syscall] of the Go library, linux/amd64. *)
Definition O_ACCMODE : Z := 3.
Definition O_RDONLY : Z := 0.
Definition O_WRONLY : Z := 1.
Definition O_RDWR : Z := 2.
Definition O_CREAT : Z := 64.
Definition O_APPEND : Z := 1024.
Definition O_DIRECT : Z := 16384.
Definition O_NOFOLLOW : Z := 131072.

(** [error]: a [syscall.Errno], or any other error value. *)
Inductive error : Type :=
| Errno (n : Z)
| OtherError (msg : string).

Definition EPERM : error := Errno 1.
Definition ENOENT : error := Errno 2.
Definition EBADF : error := Errno 9.
Definition EACCES : error := Errno 13.

(** [Stat_t]: of its fields the code reads [Mode] only. *)
Record Stat_t : Type := mkStat { Mode : Z }.
End syscall.

Module os.
Definition O_WRONLY : Z := syscall.O_WRONLY.
Definition O_RDWR : Z := syscall.O_RDWR.
Definition O_APPEND : Z := syscall.O_APPEND.
End os.

Module syscallcompat.
(** Modelled from the spec: the constant [O_DIRECT] of package
    [syscallcompat], which is not among the sources; it is the
    direct-unbuffered-I/O bit, on Linux the one of package [syscall]. *)
Definition O_DIRECT : Z := syscall.O_DIRECT.
End syscallcompat.

Module configfile.
(** Modelled from the spec: the constant [ConfDefaultName] of package
    [configfile], which is not among the sources; it is the reserved
    on-disk configuration filename, spelled as in the comment of
    [isFiltered]. *)
Definition ConfDefaultName : string := "gocryptfs.conf".
End configfile.

Module nametransform.
(** The name of the directory-IV marker file, spelled as in the comments of
    [RootNode] and [isFiltered]. *)
Definition DirIVFilename : string := "gocryptfs.diriv".
End nametransform.

Module time.
(** A [Duration] counts nanoseconds. *)
Definition Second : Z := 1000000000.
End time.

Export syscall(error, Errno, OtherError, Stat_t, mkStat, Mode).

(** ** The calls a method makes *)

(** The four operations of a [sync.RWMutex]. *)
Inductive RWOp : Type := RLock | RUnlock | Lock | Unlock.

(** The two loggers of package [tlog] the file writes to. *)
Inductive Logger : Type := Warn | Info.

(** An argument of [Printf]. *)
Inductive fmtarg : Type :=
| ArgInt (z : Z)
| ArgString (s : string)
| ArgError (e : error).

(** A channel value: a reference into the store of channels. *)
Definition chan : Type := nat.

(** A case of a [select] statement: a send on a channel, or a receive from
    [time.After d]. *)
Inductive SelectCase : Type :=
| CaseSend (c : chan) (item : string)
| CaseAfter (d : Z).

(** The interface [nametransform.NameTransformer]; of its methods the file
    calls [B64DecodeString]. *)
Record NameTransformer : Type := mkNameTransformer {
  B64DecodeString : string -> list Byte.byte * option error
}.

(** The content encryption helper [*contentenc.ContentEnc]; of its methods
    the file calls [DecryptBlock(ciphertext, blockNo, fileID)]; a nil
    [fileID] is [None]. *)
Record ContentEnc : Type := mkContentEnc {
  DecryptBlock : list Byte.byte -> Z -> option (list Byte.byte) ->
                 list Byte.byte * option error
}.

(** A call, indexed by the type of what it returns. *)
Inductive Call : Type -> Type :=
| syscallcompat_Openat (dirfd : Z) (path : string) (flags mode : Z) :
    Call (Z * option error)
| syscall_Fstat (fd : Z) : Call (Stat_t * option error)
| syscall_Fchmod (fd : Z) (mode : Z) : Call (option error)
| syscall_Close (fd : Z) : Call (option error)
| openWriteOnlyLock (op : RWOp) : Call unit
| atomic_StoreUint32_IsIdle (v : Z) : Call unit
| tlog_Printf (lg : Logger) (format : string) (args : list fmtarg) : Call unit
| nameTransform_B64DecodeString (nt : NameTransformer) (s : string) :
    Call (list Byte.byte * option error)
| contentEnc_DecryptBlock (ce : ContentEnc) (ciphertext : list Byte.byte)
    (blockNo : Z) (fileID : option (list Byte.byte)) :
    Call (list Byte.byte * option error)
| select_ (cases : list SelectCase) : Call nat.

(** A program: it returns, or makes a call and goes on with the answer. *)
Inductive Prog (A : Type) : Type :=
| Ret (a : A)
| Vis {X : Type} (c : Call X) (k : X -> Prog A).

Arguments Ret {A} a.
Arguments Vis {A X} c k.

Fixpoint bind {A B : Type} (p : Prog A) (f : A -> Prog B) : Prog B :=
  match p with
  | Ret a => f a
  | Vis c k => Vis c (fun x => bind (k x) f)
  end.

Definition call {X : Type} (c : Call X) : Prog X := Vis c Ret.

(** The monad structure, with the notations [x ← p; q] and [p;; q]. *)
#[global] Instance Prog_ret : MRet Prog := @Ret.
#[global] Instance Prog_bind : MBind Prog := fun A B f p => bind p f.

(** [defer d; body]: the deferred call [d] runs when [body] has set the
    results, on every return ([body] does not panic). *)
Definition defer {A : Type} (d : Prog unit) (body : Prog A) : Prog A :=
  r ← body; d;; Ret r.

(** ** The root node *)

Record Args : Type := mkArgs { PlaintextNames : bool }.

(** [RootNode]: the fields the methods of the file read.  [IsIdle] and the
    state of [openWriteOnlyLock] are shared and mutable, and live in the
    world the program runs against; [MitigatedCorruptions] is [None] for a
    nil channel. *)
Record RootNode : Type := mkRootNode {
  args : Args;
  nameTransform : NameTransformer;
  contentEnc : ContentEnc;
  MitigatedCorruptions : option chan
}.

(** [mangleOpenFlags] *)
Definition mangleOpenFlags (rn : RootNode) (flags : Z) : Prog Z :=
  let newFlags := int_of_uint32 flags in
  let newFlags :=
    if Z.land newFlags syscall.O_ACCMODE =? syscall.O_WRONLY
    then Z.lor (Z.lxor newFlags os.O_WRONLY) os.O_RDWR
    else newFlags in
  let newFlags := and_not newFlags os.O_APPEND in
  let newFlags := and_not newFlags syscallcompat.O_DIRECT in
  let newFlags := and_not newFlags syscall.O_CREAT in
  let newFlags := Z.lor newFlags syscall.O_NOFOLLOW in
  Ret newFlags.

(** [reportMitigatedCorruption]: the [select] has the send as case 0 and the
    timer as case 1. *)
Definition reportMitigatedCorruption (rn : RootNode) (item : string) : Prog unit :=
  match MitigatedCorruptions rn with
  | None => Ret tt
  | Some ch =>
      i ← call (select_ [CaseSend ch item; CaseAfter (1 * time.Second)]);
      match i with
      | O => Ret tt
      | _ => call (tlog_Printf Warn "BUG: reportCorruptItem: timeout" []);;
             Ret tt
      end
  end.

(** [isFiltered] *)
Definition isFiltered (rn : RootNode) (path : string) : Prog bool :=
  call (atomic_StoreUint32_IsIdle 0);;
  if negb (PlaintextNames (args rn)) then Ret false
  else if String.eqb path configfile.ConfDefaultName then
    call (tlog_Printf Info
            "The name /%s is reserved when -plaintextnames is used\n"
            [ArgString configfile.ConfDefaultName]);;
    Ret true
  else Ret false.

(** [decryptSymlinkTarget] *)
Definition decryptSymlinkTarget (rn : RootNode) (cData64 : string) :
    Prog (string * option error) :=
  if String.eqb cData64 "" then Ret ("", None)
  else
    '(cData, err) ← call (nameTransform_B64DecodeString (nameTransform rn) cData64);
    match err with
    | Some _ => Ret ("", err)
    | None =>
        '(data, err) ← call (contentEnc_DecryptBlock (contentEnc rn) cData 0 None);
        match err with
        | Some _ => Ret ("", err)
        | None => Ret (String.string_of_list_byte data, None)
        end
    end.

(** The read permission of the owner, [0400]. *)
Definition perm_0400 : Z := 256.

(** [openWriteOnlyFile]: the results are [(rwFd, err)]; a bare [return]
    leaves [rwFd] at zero.  The deferred calls run last-deferred first: the
    revert of the permissions, then the downgrade of the lock, then the close
    of [woFd]. *)
Definition openWriteOnlyFile (rn : RootNode) (dirfd : Z) (cName : string)
    (newFlags : Z) : Prog (Z * option error) :=
  '(woFd, err) ← call (syscallcompat_Openat dirfd cName
                         (Z.lor syscall.O_WRONLY syscall.O_NOFOLLOW) 0);
  match err with
  | Some _ => Ret (0, err)
  | None =>
    defer (call (syscall_Close woFd);; Ret tt) (
      '(st, err) ← call (syscall_Fstat woFd);
      match err with
      | Some _ => Ret (0, err)
      | None =>
        let perms := uint32 (Mode st) in
        if negb (Z.land perms perm_0400 =? 0) then
          call (tlog_Printf Warn
                  "openWriteOnlyFile: unexpected permissions %#o, returning EPERM"
                  [ArgInt perms]);;
          Ret (0, Some syscall.EPERM)
        else
          call (openWriteOnlyLock RUnlock);;
          call (openWriteOnlyLock Lock);;
          defer (call (openWriteOnlyLock Unlock);;
                 call (openWriteOnlyLock RLock)) (
            err ← call (syscall_Fchmod woFd (Z.lor perms perm_0400));
            match err with
            | Some e =>
                call (tlog_Printf Warn
                        "openWriteOnlyFile: changing permissions failed: %v"
                        [ArgError e]);;
                Ret (0, err)
            | None =>
                defer (err2 ← call (syscall_Fchmod woFd perms);
                       match err2 with
                       | Some e2 =>
                           call (tlog_Printf Warn
                                   "openWriteOnlyFile: reverting permissions failed: %v"
                                   [ArgError e2])
                       | None => Ret tt
                       end) (
                  call (syscallcompat_Openat dirfd cName newFlags 0))
            end)
      end)
  end.

(** ** The world a program runs against *)

(** The state of a [sync.RWMutex]: the number of readers that hold it and
    whether a writer holds it. *)
Record RWMutex : Type := mkRWMutex { readers : nat; writer : bool }.

(** A channel of strings and its consumer: the buffer and its capacity (zero
    for an unbuffered channel), the items the consumer has received, and the
    delays after which the consumer receives next, each counted from the
    receive before it; with no delay left the consumer does not drain the
    channel. *)
Record Channel : Type := mkChannel {
  buf : list string;
  cap : nat;
  recvs : list Z;
  received : list string
}.

(** The world: the shared fields of the root node, the backing store, the
    clock and the channels.  A file is an inode with its [st_mode]; a
    directory entry [(dirfd, name)] names an inode; an open descriptor refers
    to an inode.  [faults] is what the backing store is scripted to do wrong:
    every system call takes the head of the list, and fails with it if it is
    an error. *)
Record World : Type := mkWorld {
  IsIdle : Z;
  rwlock : RWMutex;
  inodes : gmap nat Z;
  dirents : gmap (Z * string) nat;
  fds : gmap Z nat;
  faults : list (option error);
  now : Z;
  chans : gmap nat Channel
}.

Definition set_IsIdle (v : Z) (w : World) : World :=
  mkWorld v (rwlock w) (inodes w) (dirents w) (fds w) (faults w) (now w) (chans w).
Definition set_rwlock (l : RWMutex) (w : World) : World :=
  mkWorld (IsIdle w) l (inodes w) (dirents w) (fds w) (faults w) (now w) (chans w).
Definition set_inodes (m : gmap nat Z) (w : World) : World :=
  mkWorld (IsIdle w) (rwlock w) m (dirents w) (fds w) (faults w) (now w) (chans w).
Definition set_fds (m : gmap Z nat) (w : World) : World :=
  mkWorld (IsIdle w) (rwlock w) (inodes w) (dirents w) m (faults w) (now w) (chans w).
Definition set_faults (l : list (option error)) (w : World) : World :=
  mkWorld (IsIdle w) (rwlock w) (inodes w) (dirents w) (fds w) l (now w) (chans w).
Definition set_clock (t : Z) (m : gmap nat Channel) (w : World) : World :=
  mkWorld (IsIdle w) (rwlock w) (inodes w) (dirents w) (fds w) (faults w) t m.

(** *** System calls *)

(** The permission bits of a mode, [07777]. *)
Definition perm_mask : Z := 4095.
(** The write permission of the owner, [0200]. *)
Definition perm_0200 : Z := 128.

(** The fault scripted for the next system call. *)
Definition next_fault (w : World) : option error * World :=
  match faults w with
  | [] => (None, w)
  | f :: fs => (f, set_faults fs w)
  end.

(** The lowest descriptor that is not open. *)
Fixpoint lowest_free (open : gmap Z nat) (fuel : nat) (fd : Z) : Z :=
  match fuel with
  | O => fd
  | S fuel' =>
      match open !! fd with
      | Some _ => lowest_free open fuel' (fd + 1)
      | None => fd
      end
  end.

Definition fresh_fd (w : World) : Z := lowest_free (fds w) (size (fds w)) 0.

(** The owner may open a file of mode [m] with [flags]: reading needs [0400],
    writing needs [0200]. *)
Definition may_open (m flags : Z) : bool :=
  let acc := Z.land flags syscall.O_ACCMODE in
  (if acc =? syscall.O_WRONLY then true else negb (Z.land m perm_0400 =? 0)) &&
  (if acc =? syscall.O_RDONLY then true else negb (Z.land m perm_0200 =? 0)).

(** Modelled from the spec: [syscallcompat.Openat], which is not among the
    sources, the open-at-directory-fd primitive of the backing store: it
    opens an existing entry of the directory, for the owner of the file. *)
Definition do_Openat (dirfd : Z) (path : string) (flags : Z) (w : World) :
    (Z * option error) * World :=
  let '(f, w) := next_fault w in
  match f with
  | Some e => ((-1, Some e), w)
  | None =>
      match ino ← dirents w !! (dirfd, path); m ← inodes w !! ino; Some (ino, m) with
      | None => ((-1, Some syscall.ENOENT), w)
      | Some (ino, m) =>
          if may_open m flags then
            let fd := fresh_fd w in
            ((fd, None), set_fds (<[fd := ino]> (fds w)) w)
          else ((-1, Some syscall.EACCES), w)
      end
  end.

(** [fstat(2)] *)
Definition do_Fstat (fd : Z) (w : World) : (Stat_t * option error) * World :=
  let '(f, w) := next_fault w in
  match f with
  | Some e => ((mkStat 0, Some e), w)
  | None =>
      match ino ← fds w !! fd; inodes w !! ino with
      | None => ((mkStat 0, Some syscall.EBADF), w)
      | Some m => ((mkStat m, None), w)
      end
  end.

(** The mode of a file of mode [old] after a change of permissions to
    [mode]: the permission bits are those of [mode], the other bits stay. *)
Definition chmod_mode (old mode : Z) : Z :=
  Z.lor (Z.ldiff old perm_mask) (Z.land mode perm_mask).

(** [fchmod(2)] *)
Definition do_Fchmod (fd mode : Z) (w : World) : option error * World :=
  let '(f, w) := next_fault w in
  match f with
  | Some e => (Some e, w)
  | None =>
      match ino ← fds w !! fd; m ← inodes w !! ino; Some (ino, m) with
      | None => (Some syscall.EBADF, w)
      | Some (ino, m) =>
          (None, set_inodes (<[ino := chmod_mode m mode]> (inodes w)) w)
      end
  end.

(** [close(2)]: the descriptor is gone also when the call reports an error. *)
Definition do_Close (fd : Z) (w : World) : option error * World :=
  let '(f, w) := next_fault w in
  match f with
  | Some e => (Some e, set_fds (delete fd (fds w)) w)
  | None =>
      match fds w !! fd with
      | None => (Some syscall.EBADF, w)
      | Some _ => (None, set_fds (delete fd (fds w)) w)
      end
  end.

(** *** The lock *)

(** An operation of the lock on its state; [None] when the caller cannot go
    on: [RLock] waits while a writer holds the lock, [Lock] waits while
    anyone holds it, and an [RUnlock] or [Unlock] of a lock that is not held
    is a fatal error. *)
Definition do_rwlock (op : RWOp) (l : RWMutex) : option RWMutex :=
  match op with
  | RLock => if writer l then None else Some (mkRWMutex (S (readers l)) false)
  | RUnlock =>
      match readers l with
      | O => None
      | S n => Some (mkRWMutex n (writer l))
      end
  | Lock =>
      match readers l, writer l with
      | O, false => Some (mkRWMutex O true)
      | _, _ => None
      end
  | Unlock => if writer l then Some (mkRWMutex (readers l) false) else None
  end.

(** *** Channels and [select] *)

(** After how long a send on the channel can proceed: at once when the buffer
    has room, else at the next receive of the consumer, else never. *)
Definition send_ready_in (c : Channel) : option Z :=
  if (length (buf c) <? cap c)%nat then Some 0
  else match recvs c with
       | [] => None
       | d :: _ => Some (Z.max 0 d)
       end.

(** After how long a case of a [select] can proceed; a send on a channel that
    does not exist never can. *)
Definition ready_in (w : World) (c : SelectCase) : option Z :=
  match c with
  | CaseAfter d => Some (Z.max 0 d)
  | CaseSend ch _ => c ← chans w !! ch; send_ready_in c
  end.

(** The case that can proceed first and its delay; of two cases that can
    proceed at the same time, the model takes the one written first. *)
Fixpoint earliest (ds : list (option Z)) : option (nat * Z) :=
  match ds with
  | [] => None
  | d :: rest =>
      match d, earliest rest with
      | None, None => None
      | Some t, None => Some (O, t)
      | None, Some (i, t') => Some (S i, t')
      | Some t, Some (i, t') => if t <=? t' then Some (O, t) else Some (S i, t')
      end
  end.

(** What the consumer takes from the buffer [b] while [T] nanoseconds pass;
    at an empty buffer it waits. *)
Fixpoint drain (T : Z) (b : list string) (rs : list Z) (got : list string)
    {struct rs} : list string * list Z * list string :=
  match rs with
  | [] => (b, [], got)
  | d :: rs' =>
      if Z.max 0 d <=? T then
        match b with
        | [] => (b, 0 :: rs', got)
        | x :: b' => drain (T - Z.max 0 d) b' rs' (got ++ [x])
        end
      else (b, (d - T) :: rs', got)
  end.

Definition elapse (T : Z) (c : Channel) : Channel :=
  let '(b, rs, got) := drain T (buf c) (recvs c) (received c) in
  mkChannel b (cap c) rs got.

(** A send that can proceed: into the buffer, or to the waiting consumer. *)
Definition do_send (item : string) (c : Channel) : Channel :=
  if (length (buf c) <? cap c)%nat
  then mkChannel (buf c ++ [item]) (cap c) (recvs c) (received c)
  else match recvs c with
       | _ :: rs => mkChannel (buf c) (cap c) rs (received c ++ [item])
       | [] => c
       end.

(** [select]: it waits for the first case that can proceed, forever ([None])
    when none ever can, and returns the index of the case. *)
Definition do_select (cases : list SelectCase) (w : World) : option (nat * World) :=
  '(i, T) ← earliest (ready_in w <$> cases);
  let chs := elapse T <$> chans w in
  let chs := match cases !! i with
             | Some (CaseSend ch item) => alter (do_send item) ch chs
             | _ => chs
             end in
  Some (i, set_clock (now w + T) chs w).

(** *** Running a program *)

(** What a call does to the world and returns; [None] when the caller cannot
    go on. *)
Definition exec {X : Type} (c : Call X) (w : World) : option (X * World) :=
  match c in Call X return option (X * World) with
  | syscallcompat_Openat dirfd path flags _ => Some (do_Openat dirfd path flags w)
  | syscall_Fstat fd => Some (do_Fstat fd w)
  | syscall_Fchmod fd mode => Some (do_Fchmod fd mode w)
  | syscall_Close fd => Some (do_Close fd w)
  | openWriteOnlyLock op => l ← do_rwlock op (rwlock w); Some (tt, set_rwlock l w)
  | atomic_StoreUint32_IsIdle v => Some (tt, set_IsIdle (uint32 v) w)
  | tlog_Printf _ _ _ => Some (tt, w)
  | nameTransform_B64DecodeString nt s => Some (B64DecodeString nt s, w)
  | contentEnc_DecryptBlock ce ct blockNo fileID =>
      Some (DecryptBlock ce ct blockNo fileID, w)
  | select_ cases => do_select cases w
  end.

(** A call with what it returned. *)
Inductive Event : Type :=
| Ev {X : Type} (c : Call X) (r : X).

(** The run of a program by one thread: the result, the world after it and
    the calls made, in order; [None] when the thread cannot go on. *)
Fixpoint run {A : Type} (p : Prog A) (w : World) : option (A * World * list Event) :=
  match p with
  | Ret a => Some (a, w, [])
  | Vis c k =>
      match exec c w with
      | None => None
      | Some (r, w') =>
          match run (k r) w' with
          | None => None
          | Some (a, w'', tr) => Some (a, w'', Ev c r :: tr)
          end
      end
  end.

Definition is_Fchmod (e : Event) : bool :=
  match e with
  | Ev (syscall_Fchmod _ _) _ => true
  | _ => false
  end.

(** The warning that the permissions could not be reverted. *)
Definition is_revert_warning (e : Event) : bool :=
  match e with
  | Ev (tlog_Printf Warn format _) _ =>
      String.eqb format "openWriteOnlyFile: reverting permissions failed: %v"
  | _ => false
  end.

(** ** Threads *)

(** How a thread holds the lock. *)
Inductive Held : Type := Free | Shared | Exclusive.

(** How a thread holds the lock after a call. *)
Definition next_held {X : Type} (h : Held) (c : Call X) : Held :=
  match c with
  | openWriteOnlyLock RLock => Shared
  | openWriteOnlyLock Lock => Exclusive
  | openWriteOnlyLock RUnlock => Free
  | openWriteOnlyLock Unlock => Free
  | _ => h
  end.

(** The calls that keep to the discipline of the lock: a thread releases only
    what it holds and acquires only when it holds nothing. *)
Definition legal {X : Type} (h : Held) (c : Call X) : Prop :=
  match c with
  | openWriteOnlyLock RLock => h = Free
  | openWriteOnlyLock Lock => h = Free
  | openWriteOnlyLock RUnlock => h = Shared
  | openWriteOnlyLock Unlock => h = Exclusive
  | _ => True
  end.

Fixpoint disciplined {A : Type} (h : Held) (p : Prog A) : Prop :=
  match p with
  | Ret _ => True
  | Vis c k => legal h c /\ forall r, disciplined (next_held h c) (k r)
  end.

(** A thread: how it holds the lock, the calls it has made, and what is left
    of its program.  The threads are opens, and return a descriptor and an
    error. *)
Record Thread : Type := mkThread {
  held : Held;
  hist : list Event;
  code : Prog (Z * option error)
}.

(** A step of a pool of threads over the shared world: one thread makes its
    next call. *)
Inductive step : World * list Thread -> World * list Thread -> Prop :=
| step_call (w w' : World) (pool : list Thread) (i : nat) (t : Thread)
    (X : Type) (c : Call X) (k : X -> Prog (Z * option error)) (r : X) :
    pool !! i = Some t ->
    code t = Vis c k ->
    exec c w = Some (r, w') ->
    step (w, pool)
         (w', <[i := mkThread (next_held (held t) c) (hist t ++ [Ev c r]) (k r)]> pool).

(** The step in which thread [j] makes its next call, [None] when it has
    returned or cannot go on. *)
Definition step_thread (j : nat) (s : World * list Thread) :
    option (World * list Thread) :=
  t ← snd s !! j;
  match code t with
  | Ret _ => None
  | Vis c k =>
      match exec c (fst s) with
      | None => None
      | Some (r, w') =>
          Some (w', <[j := mkThread (next_held (held t) c) (hist t ++ [Ev c r]) (k r)]>
                      (snd s))
      end
  end.

(** The steps of the threads [js], one after the other. *)
Fixpoint schedule (js : list nat) (s : World * list Thread) :
    option (World * list Thread) :=
  match js with
  | [] => Some s
  | j :: js' => s' ← step_thread j s; schedule js' s'
  end.

(** The permissions are relaxed: the last change of permissions the thread
    has made is its first one, and it succeeded. *)
Definition relaxed (h : list Event) : bool :=
  match filter (fun e => is_Fchmod e = true) h with
  | [Ev (syscall_Fchmod _ _) None] => true
  | _ => false
  end.

(** The next call of a program changes permissions. *)
Definition at_Fchmod {A : Type} (p : Prog A) : bool :=
  match p with
  | Vis (syscall_Fchmod _ _) _ => true
  | _ => false
  end.

Definition returned {A : Type} (p : Prog A) : bool :=
  match p with
  | Ret _ => true
  | Vis _ _ => false
  end.

(** The threads that hold the lock in a given way. *)
#[global] Instance Held_eq_dec : EqDecision Held.
Proof. solve_decision. Defined.

Fixpoint count_held (x : Held) (pool : list Thread) : nat :=
  match pool with
  | [] => O
  | t :: pool' => ((if decide (held t = x) then 1 else 0) + count_held x pool')%nat
  end.

(** The state of the lock agrees with how the threads hold it: its readers
    are the threads that hold it shared, and a writer holds it exactly when
    one thread holds it exclusively, and then it has no reader. *)
Definition lock_agrees (l : RWMutex) (pool : list Thread) : Prop :=
  readers l = count_held Shared pool /\
  count_held Exclusive pool = (if writer l then 1%nat else 0%nat) /\
  (writer l = true -> readers l = 0%nat).

(** A program changes permissions under the exclusive lock only: from where
    it holds the lock as [h] and has made the calls [tr], it keeps to the
    discipline of the lock, holds the lock exclusively at every change of
    permissions and while the permissions are relaxed, and returns holding
    the lock shared. *)
Fixpoint guarded {A : Type} (h : Held) (tr : list Event) (p : Prog A) : Prop :=
  (relaxed tr = true -> h = Exclusive) /\
  match p with
  | Ret _ => h = Shared
  | Vis c k =>
      legal h c /\
      (at_Fchmod p = true -> h = Exclusive) /\
      forall r, guarded (next_held h c) (tr ++ [Ev c r]) (k r)
  end.

(** What holds of a pool in which thread [i] changes permissions under the
    exclusive lock only, and every thread keeps to the discipline of the
    lock. *)
Definition pool_inv (i : nat) (s : World * list Thread) : Prop :=
  lock_agrees (rwlock (fst s)) (snd s) /\
  Forall (fun t => disciplined (held t) (code t)) (snd s) /\
  exists t, snd s !! i = Some t /\ guarded (held t) (hist t) (code t).

(** ** The constructor, and what a program ever calls *)

(** [NewRootNode]: the fields the methods read; the channel is nil, and the
    shared fields, the idle flag and the locks, have their zero values. *)
Definition NewRootNode (args : Args) (c : ContentEnc) (n : NameTransformer) :
    RootNode :=
  mkRootNode args n c None.

(** Every call a program makes satisfies [P], on every path and whatever the
    calls return. *)
Fixpoint always {A : Type} (P : forall X : Type, Call X -> Prop) (p : Prog A) :
    Prop :=
  match p with
  | Ret _ => True
  | Vis c k => P _ c /\ forall r, always P (k r)
  end.

(** A call of the name or content helper: it does no I/O. *)
Definition helper_call (X : Type) (c : Call X) : Prop :=
  match c with
  | nameTransform_B64DecodeString _ _ => True
  | contentEnc_DecryptBlock _ _ _ _ => True
  | _ => False
  end.

(** A call that touches neither the backing store nor the lock. *)
Definition no_backing_call (X : Type) (c : Call X) : Prop :=
  match c with
  | syscallcompat_Openat _ _ _ _ => False
  | syscall_Fstat _ => False
  | syscall_Fchmod _ _ => False
  | syscall_Close _ => False
  | openWriteOnlyLock _ => False
  | _ => True
  end.

(** A call that reaches the file through the entry [cName] of the directory
    [dirfd], opened without following a symbolic link, or through the
    descriptor [fd]. *)
Definition by_descriptor (dirfd : Z) (cName : string) (fd : Z) (X : Type)
    (c : Call X) : Prop :=
  match c with
  | syscallcompat_Openat d p flags _ =>
      d = dirfd /\ p = cName /\
      Z.land flags syscall.O_NOFOLLOW = syscall.O_NOFOLLOW
  | syscall_Fstat fd' => fd' = fd
  | syscall_Fchmod fd' _ => fd' = fd
  | syscall_Close fd' => fd' = fd
  | _ => True
  end.

(** A warning written to the log. *)
Definition is_warning (e : Event) : bool :=
  match e with
  | Ev (tlog_Printf Warn _ _) _ => true
  | _ => false
  end.

(** What the opens among the calls [tr] returned, in order. *)
Definition Openat_result (e : Event) : option (Z * option error) :=
  match e with
  | Ev c r =>
      match c in Call X return X -> option (Z * option error) with
      | syscallcompat_Openat _ _ _ _ => fun r => Some r
      | _ => fun _ => None
      end r
  end.

Definition Openat_results (tr : list Event) : list (Z * option error) :=
  omap Openat_result tr.

(** The next call of a program is an open of the backing store. *)
Definition at_Openat {A : Type} (p : Prog A) : bool :=
  match p with
  | Vis (syscallcompat_Openat _ _ _ _) _ => true
  | _ => false
  end.

(** A program opens under the lock only: from where it holds the lock as [h],
    it holds the lock, shared or exclusively, at every open of the backing
    store. *)
Fixpoint opens_locked {A : Type} (h : Held) (p : Prog A) : Prop :=
  match p with
  | Ret _ => True
  | Vis c k =>
      (at_Openat p = true -> h <> Free) /\
      forall r, opens_locked (next_held h c) (k r)
  end.

(** ** Examples of root nodes and worlds *)

(** A root node whose helpers decode and decrypt nothing. *)
Definition example_rn : RootNode :=
  mkRootNode (mkArgs false)
    (mkNameTransformer (fun s => (String.list_byte_of_string s, None)))
    (mkContentEnc (fun ct _ _ => (ct, None)))
    None.

(** A world with one file, ["f"] in the directory open as descriptor 3, of
    mode [m], in which the system calls fail as [script] says, and the lock
    is held by one reader. *)
Definition example_world (m : Z) (script : list (option error)) : World :=
  mkWorld 1 (mkRWMutex 1 false) {[ 7%nat := m ]} {[ (3, "f") := 7%nat ]}
    ∅ script 0 ∅.

(** Modelled from the spec: an open on the normal path, which is not among
    the sources; it holds the write-only-open lock in shared mode for its
    whole duration. *)
Definition example_open (dirfd : Z) (cName : string) (flags : Z) :
    Prog (Z * option error) :=
  call (openWriteOnlyLock RLock);;
  r ← call (syscallcompat_Openat dirfd cName flags 0);
  call (openWriteOnlyLock RUnlock);;
  Ret r.

(** Two threads: [openWriteOnlyFile], called on the normal path with the lock
    held shared, and an open that is about to start. *)
Definition example_pool : list Thread :=
  [mkThread Shared [] (openWriteOnlyFile example_rn 3 "f" syscall.O_RDWR);
   mkThread Free [] (example_open 3 "f" syscall.O_RDONLY)].

(** A root node with the channel 0 registered, and a world at time 7 in
    which that channel is [c]. *)
Definition example_rn_chan : RootNode :=
  mkRootNode (mkArgs false) (nameTransform example_rn) (contentEnc example_rn)
    (Some 0%nat).

Definition example_chan_world (c : Channel) : World :=
  mkWorld 0 (mkRWMutex 0 false) ∅ ∅ ∅ [] 7 {[ 0%nat := c ]}.

(** * Properties *)

(** ** Bits *)

Lemma land_pow2 (a k : Z) :
  0 <= k -> Z.land a (2 ^ k) = if Z.testbit a k then 2 ^ k else 0.
Proof.
  intros Hk. apply Z.bits_inj'. intros n Hn.
  rewrite Z.land_spec, Z.pow2_bits_eqb by lia.
  destruct (Z.eqb_spec k n) as [->|Hne].
  - destruct (Z.testbit a n); simpl.
    + rewrite Z.pow2_bits_eqb by lia. symmetry. apply Z.eqb_refl.
    + symmetry. apply Z.bits_0.
  - rewrite andb_false_r. destruct (Z.testbit a k).
    + rewrite Z.pow2_bits_eqb by lia. symmetry. now apply Z.eqb_neq.
    + symmetry. apply Z.bits_0.
Qed.

Lemma land_accmode (a : Z) :
  Z.land a syscall.O_ACCMODE = Z.b2z (Z.testbit a 0) + 2 * Z.b2z (Z.testbit a 1).
Proof.
  change syscall.O_ACCMODE with (Z.ones 2).
  rewrite Z.land_ones by lia.
  rewrite !Z.testbit_spec' by lia.
  change (2 ^ 0) with 1. change (2 ^ 1) with 2. change (2 ^ 2) with 4.
  rewrite Z.div_1_r.
  Z.div_mod_to_equations. lia.
Qed.

Lemma uint32_testbit (x i : Z) :
  0 <= i < 32 -> Z.testbit (uint32 x) i = Z.testbit x i.
Proof. intros Hi. unfold uint32. apply Z.mod_pow2_bits_low. lia. Qed.

Lemma uint32_land_low (x m : Z) :
  0 <= m < 2 ^ 32 -> Z.land (uint32 x) m = Z.land x m.
Proof.
  intros Hm. apply Z.bits_inj'. intros n Hn. rewrite !Z.land_spec.
  destruct (Z.ltb_spec n 32).
  - rewrite uint32_testbit by lia. reflexivity.
  - assert (Z.testbit m n = false) as ->.
    { destruct (Z.eqb_spec m 0) as [->|]; [apply Z.bits_0|].
      apply Z.bits_above_log2; [lia|].
      apply Z.log2_lt_pow2; [lia|].
      apply Z.lt_le_trans with (2 ^ 32); [lia|].
      apply Z.pow_le_mono_r; lia. }
    now rewrite !andb_false_r.
Qed.

(** The flags [mangleOpenFlags] computes. *)
Lemma mangleOpenFlags_Ret (rn : RootNode) (flags : Z) :
  exists newFlags, mangleOpenFlags rn flags = Ret newFlags /\
    newFlags =
      Z.lor (Z.ldiff (Z.ldiff (Z.ldiff
        (if Z.land (uint32 flags) 3 =? 1
         then Z.lor (Z.lxor (uint32 flags) 1) 2 else uint32 flags)
        1024) 16384) 64) 131072.
Proof. eexists. split; reflexivity. Qed.

Ltac const_bits :=
  repeat match goal with
  | |- context [Z.testbit (Zpos ?p) ?i] =>
      let b := eval compute in (Z.testbit (Zpos p) i) in
      change (Z.testbit (Zpos p) i) with b
  end.

Ltac closed_tests :=
  repeat match goal with
  | |- context [if ?c then _ else _] =>
      let v := eval compute in c in
      progress change c with v; cbv iota
  end.

Ltac bits :=
  repeat first
    [ rewrite Z.lor_spec | rewrite Z.ldiff_spec | rewrite Z.lxor_spec
    | rewrite Z.land_spec | rewrite uint32_testbit by lia ];
  const_bits; cbn [negb andb orb xorb Z.b2z].

(** The access mode of the flags [mangleOpenFlags] returns. *)
Lemma mangleOpenFlags_access_mode (rn : RootNode) (flags : Z) :
  exists newFlags,
    mangleOpenFlags rn flags = Ret newFlags /\
    Z.land newFlags syscall.O_ACCMODE =
      (if Z.land flags syscall.O_ACCMODE =? syscall.O_WRONLY
       then syscall.O_RDWR else Z.land flags syscall.O_ACCMODE).
Proof.
  destruct (mangleOpenFlags_Ret rn flags) as (r & Hr & ->).
  eexists. split; [exact Hr|]. clear Hr.
  assert (Hacc : Z.land (uint32 flags) 3 = Z.land flags 3)
    by (apply uint32_land_low; lia).
  rewrite Hacc. change syscall.O_WRONLY with 1. change syscall.O_RDWR with 2.
  change 3 with syscall.O_ACCMODE. rewrite (land_accmode flags), land_accmode.
  destruct (Z.testbit flags 0) eqn:H0, (Z.testbit flags 1) eqn:H1;
    cbn [Z.b2z]; closed_tests; bits; rewrite ?H0, ?H1; reflexivity.
Qed.

(** C1: for every requested flags value, the flags [mangleOpenFlags] returns
    have the access mode read-write where write-only was requested, the
    append, direct-I/O and create bits clear and the no-follow bit set,
    whatever the other bits of the request. *)
Theorem mangleOpenFlags_policy (rn : RootNode) (flags : Z) :
  exists newFlags,
    mangleOpenFlags rn flags = Ret newFlags /\
    Z.land newFlags syscall.O_ACCMODE =
      (if Z.land flags syscall.O_ACCMODE =? syscall.O_WRONLY
       then syscall.O_RDWR else Z.land flags syscall.O_ACCMODE) /\
    Z.land newFlags syscall.O_APPEND = 0 /\
    Z.land newFlags syscallcompat.O_DIRECT = 0 /\
    Z.land newFlags syscall.O_CREAT = 0 /\
    Z.land newFlags syscall.O_NOFOLLOW = syscall.O_NOFOLLOW.
Proof.
  destruct (mangleOpenFlags_access_mode rn flags) as (r & Hr & Hmode).
  exists r. split; [exact Hr|]. split; [exact Hmode|]. clear Hmode.
  destruct (mangleOpenFlags_Ret rn flags) as (r' & Hr' & Hval).
  rewrite Hr in Hr'. injection Hr' as <-. subst r. clear Hr.
  repeat split.
  - change syscall.O_APPEND with (2 ^ 10). rewrite land_pow2 by lia.
    destruct (Z.land (uint32 flags) 3 =? 1); bits; now rewrite ?andb_false_r.
  - change syscallcompat.O_DIRECT with (2 ^ 14). rewrite land_pow2 by lia.
    destruct (Z.land (uint32 flags) 3 =? 1); bits; now rewrite ?andb_false_r.
  - change syscall.O_CREAT with (2 ^ 6). rewrite land_pow2 by lia.
    destruct (Z.land (uint32 flags) 3 =? 1); bits; now rewrite ?andb_false_r.
  - change syscall.O_NOFOLLOW with (2 ^ 17). rewrite land_pow2 by lia.
    destruct (Z.land (uint32 flags) 3 =? 1); bits; now rewrite ?orb_true_r.
Qed.

(** C10: for every flags value whose access mode is not write-only (read-only
    or read-write), [mangleOpenFlags] leaves the access-mode bits as they
    are; what it returns depends on the flags alone, and it makes no call and
    leaves the world, the state of the root node included, as it was. *)
Theorem mangleOpenFlags_keeps_access_mode (rn : RootNode) (flags : Z) :
  Z.land flags syscall.O_ACCMODE <> syscall.O_WRONLY ->
  exists newFlags,
    (forall rn', mangleOpenFlags rn' flags = Ret newFlags) /\
    Z.land newFlags syscall.O_ACCMODE = Z.land flags syscall.O_ACCMODE /\
    (forall w, run (mangleOpenFlags rn flags) w = Some (newFlags, w, [])).
Proof.
  intros Hacc.
  destruct (mangleOpenFlags_access_mode rn flags) as (r & Hr & Hmode).
  exists r. split; [intros rn'; exact Hr|]. split.
  - rewrite Hmode. destruct (Z.eqb_spec (Z.land flags syscall.O_ACCMODE)
                               syscall.O_WRONLY); [contradiction|reflexivity].
  - intros w. rewrite Hr. reflexivity.
Qed.

(** A read-write request with the append and create bits. *)
Lemma mangleOpenFlags_keeps_access_mode_witness :
  exists newFlags,
    (forall rn', mangleOpenFlags rn' 1090 = Ret newFlags) /\
    Z.land newFlags syscall.O_ACCMODE = Z.land 1090 syscall.O_ACCMODE /\
    (forall w, run (mangleOpenFlags
                      (mkRootNode (mkArgs false)
                         (mkNameTransformer (fun _ => ([], None)))
                         (mkContentEnc (fun _ _ _ => ([], None))) None) 1090) w
               = Some (newFlags, w, [])).
Proof.
  apply (mangleOpenFlags_keeps_access_mode _ 1090). vm_compute. discriminate.
Defined.

(** ** [isFiltered] *)

(** What [isFiltered] returns and does, for every root node, path and
    world. *)
Lemma isFiltered_run (rn : RootNode) (path : string) (w : World) :
  exists tr,
    run (isFiltered rn path) w =
      Some (PlaintextNames (args rn) && String.eqb path configfile.ConfDefaultName,
            set_IsIdle 0 w, tr).
Proof.
  unfold isFiltered. destruct (PlaintextNames (args rn)); cbn.
  - destruct (String.eqb path configfile.ConfDefaultName); cbn; eauto.
  - eauto.
Qed.

(** C5: for every path, [isFiltered] returns true exactly when
    plaintext-names mode is on and the path is the reserved configuration
    filename, and false otherwise; every call, whatever it is given and
    whatever it returns, leaves the idle indicator at zero. *)
Theorem isFiltered_reserved_and_idle (rn : RootNode) (path : string) (w : World) :
  exists (r : bool) (w' : World) (tr : list Event),
    run (isFiltered rn path) w = Some (r, w', tr) /\
    (r = true <->
       PlaintextNames (args rn) = true /\ path = configfile.ConfDefaultName) /\
    (r = false <->
       ~ (PlaintextNames (args rn) = true /\ path = configfile.ConfDefaultName)) /\
    IsIdle w' = 0.
Proof.
  destruct (isFiltered_run rn path w) as [tr Hrun].
  do 3 eexists. split; [exact Hrun|].
  rewrite <- String.eqb_eq.
  destruct (PlaintextNames (args rn)), (String.eqb path configfile.ConfDefaultName);
    cbn; intuition congruence.
Qed.

(** C9: in plaintext-names mode [isFiltered] reserves the configuration
    filename alone: every other path, the directory-IV marker filename among
    them, is not filtered; and with plaintext-names mode off no path is
    filtered, not even the configuration filename. *)
Theorem isFiltered_reserves_only_conf (nt : NameTransformer) (ce : ContentEnc)
    (mc : option chan) (w : World) :
  (forall path, path <> configfile.ConfDefaultName ->
     exists w' tr,
       run (isFiltered (mkRootNode (mkArgs true) nt ce mc) path) w
       = Some (false, w', tr)) /\
  (exists w' tr,
     run (isFiltered (mkRootNode (mkArgs true) nt ce mc)
            nametransform.DirIVFilename) w = Some (false, w', tr)) /\
  (forall path, exists w' tr,
     run (isFiltered (mkRootNode (mkArgs false) nt ce mc) path) w
     = Some (false, w', tr)) /\
  (exists w' tr,
     run (isFiltered (mkRootNode (mkArgs false) nt ce mc)
            configfile.ConfDefaultName) w = Some (false, w', tr)).
Proof.
  repeat split.
  - intros path Hne.
    destruct (isFiltered_run (mkRootNode (mkArgs true) nt ce mc) path w) as [tr Hrun].
    apply String.eqb_neq in Hne. rewrite Hne in Hrun. eauto.
  - destruct (isFiltered_run (mkRootNode (mkArgs true) nt ce mc)
                nametransform.DirIVFilename w) as [tr Hrun]. eauto.
  - intros path.
    destruct (isFiltered_run (mkRootNode (mkArgs false) nt ce mc) path w) as [tr Hrun].
    eauto.
  - destruct (isFiltered_run (mkRootNode (mkArgs false) nt ce mc)
                configfile.ConfDefaultName w) as [tr Hrun]. eauto.
Qed.

(** ** [decryptSymlinkTarget] *)

(** C4: [decryptSymlinkTarget] of the empty string returns the empty string
    and a nil error, and makes no call at all: neither the base64 decoding
    nor the block cipher is invoked. *)
Theorem decryptSymlinkTarget_empty (rn : RootNode) (w : World) :
  decryptSymlinkTarget rn "" = Ret ("", None) /\
  run (decryptSymlinkTarget rn "") w = Some (("", None), w, []).
Proof. split; reflexivity. Qed.

(** C7: for every non-empty input, [decryptSymlinkTarget] base64-decodes the
    input and decrypts the decoded bytes as one block, of index 0 and with no
    file id; when the decoding fails the cipher is not invoked, and when the
    decoding or the decryption fails the result is the error with the empty
    string; else it is the plaintext. *)
Theorem decryptSymlinkTarget_nonempty (rn : RootNode) (cData64 : string) (w : World) :
  cData64 <> "" ->
  exists (res : string * option error) (tr : list Event),
    run (decryptSymlinkTarget rn cData64) w = Some (res, w, tr) /\
    let decoded := B64DecodeString (nameTransform rn) cData64 in
    let decrypted := DecryptBlock (contentEnc rn) (fst decoded) 0 None in
    let decode := Ev (nameTransform_B64DecodeString (nameTransform rn) cData64) decoded in
    let decrypt := Ev (contentEnc_DecryptBlock (contentEnc rn) (fst decoded) 0 None)
                      decrypted in
    match snd decoded, snd decrypted with
    | Some e, _ => res = ("", Some e) /\ tr = [decode]
    | None, Some e => res = ("", Some e) /\ tr = [decode; decrypt]
    | None, None =>
        res = (String.string_of_list_byte (fst decrypted), None) /\
        tr = [decode; decrypt]
    end.
Proof.
  intros Hne. apply String.eqb_neq in Hne.
  unfold decryptSymlinkTarget. rewrite Hne. cbn.
  destruct (B64DecodeString (nameTransform rn) cData64) as [cData [e|]] eqn:Hdec; cbn.
  - do 2 eexists. split; [reflexivity|]. split; reflexivity.
  - destruct (DecryptBlock (contentEnc rn) cData 0 None) as [data [e|]] eqn:Hblk; cbn;
      do 2 eexists; (split; [reflexivity|]); rewrite ?Hblk; cbn; split; reflexivity.
Qed.

(** A target of four bytes, for helpers that decode and decrypt nothing. *)
Lemma decryptSymlinkTarget_nonempty_witness :
  exists (res : string * option error) (tr : list Event),
    run (decryptSymlinkTarget example_rn "YWJj") (example_world 32896 [])
      = Some (res, example_world 32896 [], tr) /\
    let decoded := B64DecodeString (nameTransform example_rn) "YWJj" in
    let decrypted := DecryptBlock (contentEnc example_rn) (fst decoded) 0 None in
    let decode :=
      Ev (nameTransform_B64DecodeString (nameTransform example_rn) "YWJj") decoded in
    let decrypt :=
      Ev (contentEnc_DecryptBlock (contentEnc example_rn) (fst decoded) 0 None)
         decrypted in
    match snd decoded, snd decrypted with
    | Some e, _ => res = ("", Some e) /\ tr = [decode]
    | None, Some e => res = ("", Some e) /\ tr = [decode; decrypt]
    | None, None =>
        res = (String.string_of_list_byte (fst decrypted), None) /\
        tr = [decode; decrypt]
    end.
Proof.
  apply (decryptSymlinkTarget_nonempty example_rn "YWJj" (example_world 32896 [])).
  discriminate.
Defined.

(** ** [reportMitigatedCorruption] *)

(** The first case to proceed of a send and a timer waits no longer than the
    timer. *)
Lemma earliest_send_or_timer (s : option Z) (d : Z) :
  exists i T,
    earliest [s; Some (Z.max 0 d)] = Some (i, T) /\
    T <= Z.max 0 d /\
    (forall t, s = Some t -> 0 <= t -> 0 <= T) /\ (s = None -> 0 <= T) /\
    (s = None -> i = 1%nat /\ T = Z.max 0 d).
Proof.
  destruct s as [t|]; cbn.
  - destruct (Z.leb_spec t (Z.max 0 d)); do 2 eexists;
      (split; [reflexivity|]); repeat split; try lia; try discriminate.
    intros t' [= <-]; lia.
  - do 2 eexists. split; [reflexivity|]. repeat split; try lia; discriminate.
Qed.

Lemma send_ready_in_nonneg (c : Channel) (t : Z) :
  send_ready_in c = Some t -> 0 <= t.
Proof.
  unfold send_ready_in.
  destruct (length (buf c) <? cap c)%nat; [intros [= <-]; lia|].
  destruct (recvs c); [discriminate|]. intros [= <-]. lia.
Qed.

Lemma ready_in_send_nonneg (w : World) (ch : chan) (item : string) (t : Z) :
  ready_in w (CaseSend ch item) = Some t -> 0 <= t.
Proof.
  cbn. destruct (chans w !! ch) as [c|]; cbn; [|discriminate].
  apply send_ready_in_nonneg.
Qed.

(** While time passes, a consumer that does not drain takes nothing. *)
Lemma elapse_not_draining (T : Z) (c : Channel) :
  recvs c = [] -> elapse T c = c.
Proof. destruct c as [b n rs got]. unfold elapse. cbn. intros ->. reflexivity. Qed.

(** A [select] of a send and a timer proceeds, and within the timer. *)
Lemma do_select_send_or_timer (w : World) (ch : chan) (item : string) (d : Z) :
  exists i w',
    do_select [CaseSend ch item; CaseAfter d] w = Some (i, w') /\
    now w <= now w' <= now w + Z.max 0 d.
Proof.
  unfold do_select. change (ready_in w <$> [CaseSend ch item; CaseAfter d])
    with [ready_in w (CaseSend ch item); Some (Z.max 0 d)].
  destruct (earliest_send_or_timer (ready_in w (CaseSend ch item)) d)
    as (i & T & -> & Hle & Hsome & Hnone & _).
  assert (0 <= T).
  { destruct (ready_in w (CaseSend ch item)) as [t|] eqn:Hr.
    - apply (Hsome t eq_refl). eapply ready_in_send_nonneg, Hr.
    - apply Hnone. reflexivity. }
  do 2 eexists. split; [reflexivity|]. cbn. lia.
Qed.

(** With a consumer that does not drain a full channel, the timer fires. *)
Lemma do_select_timeout (w : World) (ch : chan) (item : string) (d : Z) (c : Channel) :
  chans w !! ch = Some c ->
  (cap c <= length (buf c))%nat -> recvs c = [] ->
  exists w',
    do_select [CaseSend ch item; CaseAfter d] w = Some (1%nat, w') /\
    now w' = now w + Z.max 0 d /\ chans w' !! ch = Some c.
Proof.
  intros Hch Hfull Hnodrain. unfold do_select.
  change (ready_in w <$> [CaseSend ch item; CaseAfter d])
    with [ready_in w (CaseSend ch item); Some (Z.max 0 d)].
  assert (ready_in w (CaseSend ch item) = None) as ->.
  { cbn. rewrite Hch. cbn. unfold send_ready_in. rewrite Hnodrain.
    destruct (Nat.ltb_spec (length (buf c)) (cap c)); [lia|reflexivity]. }
  eexists. split; [reflexivity|]. cbn. split; [reflexivity|].
  rewrite lookup_fmap, Hch. cbn. now rewrite elapse_not_draining.
Qed.

(** C6: for every item, [reportMitigatedCorruption] returns, and within one
    second; with no channel registered it returns at once and does nothing;
    with a channel registered whose consumer does not drain it, so that the
    send cannot proceed, it returns when one second has passed, having logged
    a warning and sent nothing. *)
Theorem reportMitigatedCorruption_bounded (rn : RootNode) (item : string) (w : World) :
  (exists w' tr,
     run (reportMitigatedCorruption rn item) w = Some (tt, w', tr) /\
     now w <= now w' <= now w + 1 * time.Second) /\
  (MitigatedCorruptions rn = None ->
     run (reportMitigatedCorruption rn item) w = Some (tt, w, [])) /\
  (forall (ch : chan) (c : Channel),
     MitigatedCorruptions rn = Some ch ->
     chans w !! ch = Some c ->
     (cap c <= length (buf c))%nat -> recvs c = [] ->
     exists w',
       run (reportMitigatedCorruption rn item) w =
         Some (tt, w',
               [Ev (select_ [CaseSend ch item; CaseAfter (1 * time.Second)]) 1%nat;
                Ev (tlog_Printf Warn "BUG: reportCorruptItem: timeout" []) tt]) /\
       now w' = now w + 1 * time.Second /\
       chans w' !! ch = Some c).
Proof.
  unfold reportMitigatedCorruption. repeat split.
  - destruct (MitigatedCorruptions rn) as [ch|];
      [|do 2 eexists; split; [reflexivity|unfold time.Second; lia]].
    destruct (do_select_send_or_timer w ch item (1 * time.Second))
      as (i & w' & Hsel & Hnow).
    change (Z.max 0 (1 * time.Second)) with (1 * time.Second) in Hnow.
    cbn -[do_select time.Second Z.mul]. rewrite Hsel.
    destruct i; cbn -[time.Second Z.mul]; do 2 eexists; (split; [reflexivity|]);
      exact Hnow.
  - intros ->. reflexivity.
  - intros ch c -> Hch Hfull Hnodrain.
    destruct (do_select_timeout w ch item (1 * time.Second) c Hch Hfull Hnodrain)
      as (w' & Hsel & Hnow & Hc).
    cbn -[do_select time.Second Z.mul]. rewrite Hsel. cbn -[time.Second Z.mul].
    exists w'. split; [reflexivity|]. split; [exact Hnow|exact Hc].
Qed.

(** ** [openWriteOnlyFile] *)

(** *** What the system calls change *)

Lemma do_Openat_spec (dirfd : Z) (path : string) (flags : Z) (w w' : World)
    (fd : Z) (err : option error) :
  do_Openat dirfd path flags w = ((fd, err), w') ->
  inodes w' = inodes w /\ dirents w' = dirents w /\ rwlock w' = rwlock w /\
  match err with
  | None => exists ino,
      dirents w !! (dirfd, path) = Some ino /\ fds w' = <[fd := ino]> (fds w)
  | Some _ => fds w' = fds w
  end.
Proof.
  unfold do_Openat, next_fault.
  destruct (faults w) as [|[e|] fs]; cbn;
    try (intros [= <- <- <-]; cbn; tauto);
    (destruct (dirents w !! (dirfd, path)) as [ino|]; cbn;
       [|intros [= <- <- <-]; cbn; tauto]);
    (destruct (inodes w !! ino) as [m|]; cbn; [|intros [= <- <- <-]; cbn; tauto]);
    (destruct (may_open m flags); intros [= <- <- <-]; cbn; [|tauto]);
    repeat split; eexists; split; reflexivity.
Qed.

Lemma do_Fstat_spec (fd : Z) (w w' : World) (st : Stat_t) (err : option error) :
  do_Fstat fd w = ((st, err), w') ->
  inodes w' = inodes w /\ dirents w' = dirents w /\ rwlock w' = rwlock w /\
  fds w' = fds w /\
  (err = None ->
   exists ino, fds w !! fd = Some ino /\ inodes w !! ino = Some (Mode st)).
Proof.
  unfold do_Fstat, next_fault.
  destruct (faults w) as [|[e|] fs]; cbn;
    try (intros [= <- <- <-]; cbn; repeat split; discriminate);
    (destruct (fds w !! fd) as [ino|]; cbn;
       [|intros [= <- <- <-]; cbn; repeat split; discriminate]);
    (destruct (inodes w !! ino) as [m|] eqn:Hm; cbn;
       [|intros [= <- <- <-]; cbn; repeat split; discriminate]);
    intros [= <- <- <-]; cbn; repeat split; intros _; eexists; split; eauto.
Qed.

Lemma do_Fchmod_spec (fd mode : Z) (w w' : World) (err : option error) :
  do_Fchmod fd mode w = (err, w') ->
  dirents w' = dirents w /\ rwlock w' = rwlock w /\ fds w' = fds w /\
  match err with
  | None => exists ino m,
      fds w !! fd = Some ino /\ inodes w !! ino = Some m /\
      inodes w' = <[ino := chmod_mode m mode]> (inodes w)
  | Some _ => inodes w' = inodes w
  end.
Proof.
  unfold do_Fchmod, next_fault.
  destruct (faults w) as [|[e|] fs]; cbn;
    try (intros [= <- <-]; cbn; tauto);
    (destruct (fds w !! fd) as [ino|]; cbn; [|intros [= <- <-]; cbn; tauto]);
    (destruct (inodes w !! ino) as [m|] eqn:Hm; cbn;
       [|intros [= <- <-]; cbn; tauto]);
    intros [= <- <-]; cbn; repeat split; do 2 eexists; eauto.
Qed.

Lemma do_Close_spec (fd : Z) (w w' : World) (err : option error) :
  do_Close fd w = (err, w') ->
  inodes w' = inodes w /\ dirents w' = dirents w /\ rwlock w' = rwlock w.
Proof.
  unfold do_Close, next_fault.
  destruct (faults w) as [|[e|] fs]; cbn;
    try (intros [= <- <-]; cbn; tauto);
    (destruct (fds w !! fd); intros [= <- <-]; cbn; tauto).
Qed.

(** *** Modes *)

Lemma chmod_mode_revert (m x y : Z) :
  Z.land y perm_mask = Z.land m perm_mask ->
  chmod_mode (chmod_mode m x) y = m.
Proof.
  intros Hy. unfold chmod_mode. rewrite Hy.
  apply Z.bits_inj'. intros n Hn.
  rewrite !Z.lor_spec, !Z.ldiff_spec, !Z.lor_spec, !Z.ldiff_spec, !Z.land_spec.
  destruct (Z.testbit m n), (Z.testbit x n), (Z.testbit perm_mask n); reflexivity.
Qed.

Lemma chmod_mode_relax (m : Z) :
  chmod_mode m (Z.lor (uint32 m) perm_0400) = Z.lor m perm_0400.
Proof.
  unfold chmod_mode. apply Z.bits_inj'. intros n Hn.
  rewrite !Z.lor_spec, !Z.ldiff_spec, !Z.land_spec, !Z.lor_spec.
  change perm_mask with (Z.ones 12). change perm_0400 with (2 ^ 8).
  rewrite Z.pow2_bits_eqb by lia.
  destruct (Z.ltb_spec n 12).
  - rewrite Z.ones_spec_low by lia. rewrite uint32_testbit by lia.
    cbn. now rewrite andb_false_r, !andb_true_r.
  - rewrite Z.ones_spec_high by lia.
    destruct (Z.eqb_spec 8 n); [lia|]. cbn.
    now rewrite !andb_false_r, andb_true_r, !orb_false_r.
Qed.

(** *** The file has read permission *)

Ltac run_step :=
  cbn -[do_Openat do_Fstat do_Fchmod do_Close do_rwlock uint32 Z.land Z.lor
        perm_0400 syscall.O_WRONLY syscall.O_NOFOLLOW].



(** *** The file has no read permission *)




(** ** The lock of [openWriteOnlyFile], among threads *)

Section Threads.

Implicit Types (pool : list Thread) (t : Thread) (x : Held).

Lemma count_held_insert pool (j : nat) t t' x :
  pool !! j = Some t ->
  (count_held x (<[j := t']> pool) + (if decide (held t = x) then 1 else 0)
   = count_held x pool + (if decide (held t' = x) then 1 else 0))%nat.
Proof.
  revert j. induction pool as [|t0 pool IH]; intros [|j]; try discriminate.
  - intros [= ->]. change (<[0%nat := t']> (t :: pool)) with (t' :: pool).
    cbn [count_held]. repeat case_decide; lia.
  - intros Hj. specialize (IH j Hj).
    change (<[S j := t']> (t0 :: pool)) with (t0 :: <[j := t']> pool).
    cbn [count_held].
    destruct (decide (held t = x)), (decide (held t' = x)),
      (decide (held t0 = x)); lia.
Qed.

Lemma count_held_none pool (j : nat) t x :
  count_held x pool = 0%nat -> pool !! j = Some t -> held t <> x.
Proof.
  revert j. induction pool as [|t0 pool IH]; intros [|j]; cbn; try discriminate.
  - intros Hc [= ->]. destruct (decide (held t = x)); [discriminate|assumption].
  - intros Hc Hj. apply (IH j); [case_decide; lia|exact Hj].
Qed.

Lemma count_held_one pool (i j : nat) ti tj x :
  count_held x pool = 1%nat ->
  pool !! i = Some ti -> held ti = x ->
  pool !! j = Some tj -> j <> i -> held tj <> x.
Proof.
  intros Hc Hi Hx Hj Hne.
  set (t0 := mkThread (match x with Free => Shared | _ => Free end) []
               (Ret (0, None))).
  pose proof (count_held_insert pool i ti t0 x Hi) as Hins.
  rewrite decide_True in Hins by exact Hx.
  rewrite decide_False in Hins by (destruct x; discriminate).
  apply (count_held_none (<[i := t0]> pool) j tj x); [lia|].
  rewrite list_lookup_insert_ne by congruence. exact Hj.
Qed.

(** A call other than an operation of the lock leaves the lock as it is. *)
Lemma exec_keeps_lock {X : Type} (c : Call X) (w w' : World) (r : X) :
  exec c w = Some (r, w') ->
  match c with
  | openWriteOnlyLock op => do_rwlock op (rwlock w) = Some (rwlock w')
  | _ => rwlock w' = rwlock w
  end.
Proof.
  destruct c; cbn.
  - intros [= Heq]. destruct r as [fd err].
    eapply do_Openat_spec in Heq. tauto.
  - intros [= Heq]. destruct r as [st err].
    eapply do_Fstat_spec in Heq. tauto.
  - intros [= Heq]. eapply do_Fchmod_spec in Heq. tauto.
  - intros [= Heq]. eapply do_Close_spec in Heq. tauto.
  - destruct (do_rwlock op (rwlock w)); cbn; [|discriminate].
    intros [= _ <-]. reflexivity.
  - intros [= _ <-]. reflexivity.
  - intros [= _ <-]. reflexivity.
  - intros [= _ <-]. reflexivity.
  - intros [= _ <-]. reflexivity.
  - unfold do_select. destruct (earliest _) as [[i T]|]; cbn; [|discriminate].
    intros [= _ <-]. reflexivity.
Qed.

Lemma guarded_disciplined {A : Type} (p : Prog A) (h : Held) (tr : list Event) :
  guarded h tr p -> disciplined h p.
Proof.
  revert h tr. induction p as [a|X c k IH]; intros h tr; cbn; [tauto|].
  intros (_ & Hlegal & _ & Hk). split; [exact Hlegal|].
  intros r. eapply IH, Hk.
Qed.

Lemma lock_agrees_step pool (j : nat) t {X : Type} (c : Call X) (w w' : World)
    (r : X) (tr : list Event) (p : Prog (Z * option error)) :
  lock_agrees (rwlock w) pool ->
  pool !! j = Some t ->
  legal (held t) c ->
  exec c w = Some (r, w') ->
  lock_agrees (rwlock w') (<[j := mkThread (next_held (held t) c) tr p]> pool).
Proof.
  intros (Hrd & Hwr & Hex) Hj Hlegal Hexec.
  pose proof (count_held_insert pool j t
                (mkThread (next_held (held t) c) tr p) Shared Hj) as Hs.
  pose proof (count_held_insert pool j t
                (mkThread (next_held (held t) c) tr p) Exclusive Hj) as He.
  apply exec_keeps_lock in Hexec. unfold lock_agrees. cbn [held] in *.
  destruct c;
    try (rewrite Hexec; cbn [next_held] in *;
         match goal with |- context [count_held _ ?q] => set (pool' := q) in * end;
         assert (Hs' : count_held Shared pool' = count_held Shared pool)
           by (destruct (decide (held t = Shared)); lia);
         assert (He' : count_held Exclusive pool' = count_held Exclusive pool)
           by (destruct (decide (held t = Exclusive)); lia);
         rewrite Hs', He'; repeat split; assumption).
  destruct (rwlock w) as [n b], (rwlock w') as [n' b']. cbn in *.
  destruct op; cbn in *; rewrite Hlegal in *; cbn in *;
    repeat case_decide; try congruence;
    destruct n as [|n], b; try discriminate;
    try (specialize (Hex eq_refl); discriminate);
    injection Hexec as <- <-;
    repeat split; try discriminate; lia.
Qed.

End Threads.

(** [openWriteOnlyFile], called with the lock held shared, changes
    permissions under the exclusive lock only. *)
Ltac guard_step :=
  cbn -[Z.land Z.lor Z.eqb uint32];
  match goal with
  | |- _ /\ _ => split
  | |- forall _, _ => intros ?
  | |- True => exact I
  | |- _ = _ => first [reflexivity | congruence]
  | H : _ = true |- _ = _ => vm_compute in H; discriminate H
  | |- context [match ?x with _ => _ end] => destruct x
  end.

Lemma openWriteOnlyFile_guarded (rn : RootNode) (dirfd : Z) (cName : string)
    (newFlags : Z) :
  guarded Shared [] (openWriteOnlyFile rn dirfd cName newFlags).
Proof. unfold openWriteOnlyFile. repeat guard_step. Qed.

Lemma step_pool_inv (i : nat) (s s' : World * list Thread) :
  pool_inv i s -> step s s' -> pool_inv i s'.
Proof.
  intros (Hlock & Hdisc & ti & Hi & Hguard) Hstep.
  destruct Hstep as [w w' pool j t X c k r Hj Hcode Hexec]. cbn [fst snd] in *.
  assert (Hlegal : legal (held t) c /\
                   forall r, disciplined (next_held (held t) c) (k r)).
  { rewrite Forall_lookup in Hdisc. specialize (Hdisc j t Hj).
    rewrite Hcode in Hdisc. exact Hdisc. }
  destruct Hlegal as [Hlegal Hk].
  split; [|split]; cbn [fst snd].
  - eapply lock_agrees_step; eassumption.
  - apply Forall_insert; [exact Hdisc|]. apply Hk.
  - destruct (decide (j = i)) as [->|Hne].
    + eexists. split.
      * apply list_lookup_insert_eq. apply lookup_lt_Some in Hj. exact Hj.
      * cbn. rewrite Hi in Hj. injection Hj as <-.
        rewrite Hcode in Hguard. cbn in Hguard.
        destruct Hguard as (_ & _ & _ & Hnext). apply Hnext.
    + exists ti. split; [|exact Hguard].
      rewrite list_lookup_insert_ne by exact Hne. exact Hi.
Qed.

Lemma rtc_pool_inv (i : nat) (s s' : World * list Thread) :
  pool_inv i s -> rtc step s s' -> pool_inv i s'.
Proof.
  intros Hinv Hsteps. induction Hsteps as [|s1 s2 s3 Hstep _ IH]; [exact Hinv|].
  apply IH. eapply step_pool_inv; eassumption.
Qed.


Lemma step_thread_step (j : nat) (s s' : World * list Thread) :
  step_thread j s = Some s' -> step s s'.
Proof.
  destruct s as [w pool]. unfold step_thread. cbn [fst snd].
  destruct (pool !! j) as [t|] eqn:Hj; cbn; [|discriminate].
  destruct (code t) as [a|X c k] eqn:Hcode; [discriminate|].
  destruct (exec c w) as [[r w']|] eqn:Hexec; [|discriminate].
  intros [= <-]. econstructor; eassumption.
Qed.

Lemma schedule_rtc (js : list nat) (s s' : World * list Thread) :
  schedule js s = Some s' -> rtc step s s'.
Proof.
  revert s. induction js as [|j js IH]; intros s; cbn.
  - intros [= <-]. apply rtc_refl.
  - destruct (step_thread j s) as [s1|] eqn:Hstep; cbn; [|discriminate].
    intros Hrest. eapply rtc_l; [eapply step_thread_step, Hstep|].
    apply IH, Hrest.
Qed.


(** ** The workaround at work *)

(** A file of mode [0100200] cannot be opened read-write by its owner. *)
Example open_rdwr_denied :
  fst (do_Openat 3 "f" syscall.O_RDWR (example_world 32896 []))
  = (-1, Some syscall.EACCES).
Proof. reflexivity. Qed.

(** [openWriteOnlyFile] opens it: the descriptor is the second one the call
    opens, the first is closed again, and the mode and the lock are as
    before. *)
Example openWriteOnlyFile_opens :
  match run (openWriteOnlyFile example_rn 3 "f" syscall.O_RDWR)
            (example_world 32896 []) with
  | Some (r, w', tr) =>
      r = (1, None) /\ inodes w' !! 7%nat = Some 32896 /\
      fds w' = {[ 1 := 7%nat ]} /\ rwlock w' = mkRWMutex 1 false /\
      length tr = 10%nat
  | None => False
  end.
Proof. vm_compute. repeat split. Qed.

(** When the read-write open fails, the error is returned and the mode is
    reverted all the same. *)
Example openWriteOnlyFile_open_fails :
  match run (openWriteOnlyFile example_rn 3 "f" syscall.O_RDWR)
            (example_world 32896 [None; None; None; Some syscall.EACCES]) with
  | Some (r, w', tr) =>
      r = (-1, Some syscall.EACCES) /\ inodes w' !! 7%nat = Some 32896 /\
      fds w' = ∅ /\ rwlock w' = mkRWMutex 1 false
  | None => False
  end.
Proof. vm_compute. repeat split. Qed.

(** Called without the lock held, the function cannot go on: the release of
    the shared lock is a fatal error. *)
Example openWriteOnlyFile_needs_lock :
  run (openWriteOnlyFile example_rn 3 "f" syscall.O_RDWR)
      (set_rwlock (mkRWMutex 0 false) (example_world 32896 [])) = None.
Proof. reflexivity. Qed.

(** A [select] with a send alone blocks for ever on a channel that nobody
    drains; with a timer it returns. *)
Example select_send_blocks :
  do_select [CaseSend 0%nat "x"]
    (mkWorld 1 (mkRWMutex 0 false) ∅ ∅ ∅ [] 0 {[ 0%nat := mkChannel [] 0 [] [] ]})
  = None.
Proof. reflexivity. Qed.

(** A report to a consumer that receives after half a second is delivered,
    and no warning is logged. *)
Example reportMitigatedCorruption_delivered :
  match run (reportMitigatedCorruption
               (mkRootNode (mkArgs false) (nameTransform example_rn)
                  (contentEnc example_rn) (Some 0%nat)) "corrupt")
            (mkWorld 1 (mkRWMutex 0 false) ∅ ∅ ∅ [] 0
               {[ 0%nat := mkChannel [] 0 [500000000] [] ]}) with
  | Some (_, w', tr) =>
      now w' = 500000000 /\ length tr = 1%nat /\
      (received <$> chans w' !! 0%nat) = Some ["corrupt"]
  | None => False
  end.
Proof. vm_compute. repeat split. Qed.

(** * Further properties *)

(** ** [mangleOpenFlags]: the bits it leaves alone *)

(** The bits of the value [mangleOpenFlags] returns, one by one. *)
Lemma mangleOpenFlags_testbit (rn : RootNode) (flags : Z) :
  exists newFlags,
    mangleOpenFlags rn flags = Ret newFlags /\
    forall i, 0 <= i ->
      Z.testbit newFlags i =
        (if Z.land flags syscall.O_ACCMODE =? syscall.O_WRONLY
         then (if i =? 0 then false else if i =? 1 then true
               else Z.testbit (uint32 flags) i)
         else Z.testbit (uint32 flags) i)
        && negb (i =? 10) && negb (i =? 14) && negb (i =? 6) || (i =? 17).
Proof.
  destruct (mangleOpenFlags_Ret rn flags) as (r & Hr & ->).
  eexists. split; [exact Hr|]. intros i Hi.
  rewrite (uint32_land_low flags 3) by lia.
  change (Z.land flags syscall.O_ACCMODE =? syscall.O_WRONLY)
    with (Z.land flags 3 =? 1).
  rewrite Z.lor_spec, !Z.ldiff_spec.
  change 1024 with (2 ^ 10). change 16384 with (2 ^ 14).
  change 64 with (2 ^ 6). change 131072 with (2 ^ 17).
  rewrite !Z.pow2_bits_eqb by lia.
  rewrite (Z.eqb_sym 10), (Z.eqb_sym 14), (Z.eqb_sym 6), (Z.eqb_sym 17).
  do 4 f_equal.
  destruct (Z.eqb_spec (Z.land flags 3) 1) as [Hacc|_]; [|reflexivity].
  change 3 with syscall.O_ACCMODE in Hacc. rewrite land_accmode in Hacc.
  rewrite Z.lor_spec, Z.lxor_spec.
  change (Z.testbit 1 i) with (Z.testbit (2 ^ 0) i).
  change (Z.testbit 2 i) with (Z.testbit (2 ^ 1) i).
  rewrite !Z.pow2_bits_eqb by lia.
  rewrite (Z.eqb_sym 0), (Z.eqb_sym 1).
  destruct (Z.eqb_spec i 0) as [->|].
  - rewrite uint32_testbit by lia.
    destruct (Z.testbit flags 0), (Z.testbit flags 1); cbn in Hacc; try lia.
    reflexivity.
  - destruct (Z.eqb_spec i 1) as [->|]; [now rewrite orb_true_r|].
    now rewrite xorb_false_r, orb_false_r.
Qed.

Lemma uint32_testbit_high (x i : Z) : 32 <= i -> Z.testbit (uint32 x) i = false.
Proof. intros Hi. unfold uint32. apply Z.mod_pow2_bits_high. lia. Qed.

Lemma mangleOpenFlags_range (rn : RootNode) (flags newFlags : Z) :
  mangleOpenFlags rn flags = Ret newFlags -> 0 <= newFlags < 2 ^ 32.
Proof.
  intros Hr. destruct (mangleOpenFlags_testbit rn flags) as (r & Hr' & Hbits).
  rewrite Hr in Hr'. injection Hr' as <-.
  assert (Hmod : newFlags mod 2 ^ 32 = newFlags).
  { apply Z.bits_inj'. intros i Hi. destruct (Z.ltb_spec i 32).
    - apply Z.mod_pow2_bits_low. lia.
    - rewrite Z.mod_pow2_bits_high by lia. rewrite Hbits by lia.
      rewrite uint32_testbit_high by lia.
      destruct (Z.eqb_spec i 0), (Z.eqb_spec i 1), (Z.eqb_spec i 17); try lia.
      now destruct (Z.land flags syscall.O_ACCMODE =? syscall.O_WRONLY). }
  rewrite <- Hmod. apply Z.mod_pos_bound. lia.
Qed.

(** X1: the flags [mangleOpenFlags] returns fit in 32 bits, and every bit of
    the request other than the two access-mode bits and the create, append,
    direct-I/O and no-follow bits is passed on as it is. *)
Theorem mangleOpenFlags_other_bits (rn : RootNode) (flags : Z) :
  exists newFlags,
    mangleOpenFlags rn flags = Ret newFlags /\
    0 <= newFlags < 2 ^ 32 /\
    forall i, 0 <= i < 32 ->
      ~ In i [0; 1; 6; 10; 14; 17] ->
      Z.testbit newFlags i = Z.testbit flags i.
Proof.
  destruct (mangleOpenFlags_testbit rn flags) as (r & Hr & Hbits).
  exists r. split; [exact Hr|]. split; [eapply mangleOpenFlags_range, Hr|].
  intros i Hi Hnot. rewrite Hbits by lia. rewrite uint32_testbit by lia.
  cbn in Hnot.
  destruct (Z.eqb_spec i 0), (Z.eqb_spec i 1), (Z.eqb_spec i 6),
    (Z.eqb_spec i 10), (Z.eqb_spec i 14), (Z.eqb_spec i 17);
    try (exfalso; lia).
  destruct (Z.land flags syscall.O_ACCMODE =? syscall.O_WRONLY); cbn;
    rewrite ?orb_false_r, ?andb_true_r; reflexivity.
Qed.

(** X2: [mangleOpenFlags] is idempotent: given the flags it has returned, it
    returns them again. *)
Theorem mangleOpenFlags_idempotent (rn rn' : RootNode) (flags : Z) :
  exists newFlags,
    mangleOpenFlags rn flags = Ret newFlags /\
    mangleOpenFlags rn' newFlags = Ret newFlags.
Proof.
  destruct (mangleOpenFlags_testbit rn flags) as (r & Hr & Hbits).
  exists r. split; [exact Hr|].
  destruct (mangleOpenFlags_testbit rn' r) as (r2 & Hr2 & Hbits2).
  rewrite Hr2. f_equal.
  pose proof (mangleOpenFlags_range rn flags r Hr) as Hrange.
  destruct (mangleOpenFlags_access_mode rn flags) as (r' & Hr' & Hacc).
  rewrite Hr in Hr'. injection Hr' as <-.
  assert (Hnot : (Z.land r syscall.O_ACCMODE =? syscall.O_WRONLY) = false).
  { rewrite Hacc.
    destruct (Z.eqb_spec (Z.land flags syscall.O_ACCMODE) syscall.O_WRONLY);
      [reflexivity|]. now apply Z.eqb_neq. }
  assert (Hu : uint32 r = r) by (apply Z.mod_small; exact Hrange).
  apply Z.bits_inj'. intros i Hi.
  rewrite Hbits2, Hnot, Hu by lia. rewrite Hbits by lia.
  destruct (i =? 10), (i =? 14), (i =? 6), (i =? 17);
    cbn; rewrite ?andb_false_r, ?andb_true_r, ?orb_false_r, ?orb_true_r;
    reflexivity.
Qed.

(** ** What the methods never call *)

(** X3: [isFiltered] touches neither the backing store nor the lock, on any
    path; a call changes nothing in the world but the idle flag, and logs the
    reserved-name message exactly when it returns true. *)
Theorem isFiltered_frame (rn : RootNode) (path : string) (w : World) :
  always no_backing_call (isFiltered rn path) /\
  exists r : bool,
    run (isFiltered rn path) w =
      Some (r, set_IsIdle 0 w,
            Ev (atomic_StoreUint32_IsIdle 0) tt ::
            if r
            then [Ev (tlog_Printf Info
                        "The name /%s is reserved when -plaintextnames is used\n"
                        [ArgString configfile.ConfDefaultName]) tt]
            else []).
Proof.
  unfold isFiltered. split.
  - cbn. split; [exact I|]. intros _.
    destruct (PlaintextNames (args rn)); cbn; [|exact I].
    destruct (String.eqb path configfile.ConfDefaultName); cbn; auto.
  - destruct (PlaintextNames (args rn)); cbn; [|exists false; reflexivity].
    destruct (String.eqb path configfile.ConfDefaultName); cbn;
      [exists true|exists false]; reflexivity.
Qed.

(** X4: [decryptSymlinkTarget] does no I/O: on every path, and whatever the
    helpers return, the only calls it makes are to the base64 decoder and to
    the block decryption. *)
Theorem decryptSymlinkTarget_no_io (rn : RootNode) (cData64 : string) :
  always helper_call (decryptSymlinkTarget rn cData64).
Proof.
  unfold decryptSymlinkTarget.
  destruct (String.eqb cData64 ""); cbn; [exact I|].
  split; [exact I|]. intros [cData [e|]]; cbn; [exact I|].
  split; [exact I|]. intros [data [e|]]; cbn; exact I.
Qed.

(** X5: [reportMitigatedCorruption] touches neither the backing store nor the
    lock, and a root node just built by [NewRootNode] has no channel, so that
    every report returns at once and does nothing. *)
Theorem NewRootNode_reports_nothing (args : Args) (c : ContentEnc)
    (n : NameTransformer) (rn : RootNode) (item : string) (w : World) :
  always no_backing_call (reportMitigatedCorruption rn item) /\
  run (reportMitigatedCorruption (NewRootNode args c n) item) w = Some (tt, w, []).
Proof.
  split; [|reflexivity]. unfold reportMitigatedCorruption.
  destruct (MitigatedCorruptions rn); cbn; [|exact I].
  split; [exact I|]. intros [|i]; cbn; auto.
Qed.

(** The flags [mangleOpenFlags] returns have the no-follow bit. *)
Lemma mangleOpenFlags_bits17 (rn : RootNode) (flags : Z) :
  exists newFlags,
    mangleOpenFlags rn flags = Ret newFlags /\
    Z.land newFlags syscall.O_NOFOLLOW = syscall.O_NOFOLLOW.
Proof.
  destruct (mangleOpenFlags_testbit rn flags) as (r & Hr & Hbits).
  exists r. split; [exact Hr|].
  change syscall.O_NOFOLLOW with (2 ^ 17). rewrite land_pow2 by lia.
  rewrite Hbits by lia. cbn. now rewrite orb_true_r.
Qed.

(** X6: with the flags that [mangleOpenFlags] returns, [openWriteOnlyFile]
    reaches the file by the entry [cName] of [dirfd] and by the descriptor of
    its first open alone: both opens name that entry and do not follow a
    symbolic link, and the stat, the changes of permissions and the close
    are on the descriptor the first open returned. *)
Theorem openWriteOnlyFile_by_descriptor (rn : RootNode) (dirfd : Z)
    (cName : string) (flags : Z) :
  exists newFlags k,
    mangleOpenFlags rn flags = Ret newFlags /\
    openWriteOnlyFile rn dirfd cName newFlags =
      Vis (syscallcompat_Openat dirfd cName
             (Z.lor syscall.O_WRONLY syscall.O_NOFOLLOW) 0) k /\
    forall woFd err, always (by_descriptor dirfd cName woFd) (k (woFd, err)).
Proof.
  destruct (mangleOpenFlags_bits17 rn flags) as (newFlags & Hr & Hno).
  exists newFlags. eexists. split; [exact Hr|]. split; [reflexivity|].
  intros woFd [e|]; [exact I|].
  cbn -[Z.land Z.lor Z.eqb uint32 syscall.O_NOFOLLOW].
  split; [reflexivity|]. intros [st [e|]];
    cbn -[Z.land Z.lor Z.eqb uint32 syscall.O_NOFOLLOW];
    [split; [reflexivity|intros _; exact I]|].
  destruct (negb _); cbn -[Z.land Z.lor Z.eqb uint32 syscall.O_NOFOLLOW].
  { split; [exact I|]. intros _. split; [reflexivity|]. intros _. exact I. }
  repeat (first [ split; [first [exact I | reflexivity | (repeat split; (reflexivity || exact Hno))]|]
                | intros [e|] | intros [? [e|]] | intros ? | exact I ];
          cbn -[Z.land Z.lor Z.eqb uint32 syscall.O_NOFOLLOW]).
Qed.

(** ** [reportMitigatedCorruption]: delivered or dropped *)

(** A send that can proceed before the timer is the case [select] takes. *)
Lemma do_select_send (w : World) (ch : chan) (item : string) (d T : Z) (c : Channel) :
  chans w !! ch = Some c ->
  send_ready_in c = Some T ->
  T <= Z.max 0 d ->
  exists w',
    do_select [CaseSend ch item; CaseAfter d] w = Some (0%nat, w') /\
    now w' = now w + T /\
    chans w' !! ch = Some (do_send item (elapse T c)) /\
    inodes w' = inodes w /\ fds w' = fds w /\ rwlock w' = rwlock w /\
    IsIdle w' = IsIdle w.
Proof.
  intros Hch Hready Hle. unfold do_select.
  change (ready_in w <$> [CaseSend ch item; CaseAfter d])
    with [ready_in w (CaseSend ch item); Some (Z.max 0 d)].
  assert (ready_in w (CaseSend ch item) = Some T) as ->
    by (cbn; rewrite Hch; exact Hready).
  cbn [earliest]. destruct (Z.leb_spec T (Z.max 0 d)); [|lia].
  eexists. split; [reflexivity|]. cbn. split; [reflexivity|].
  split; [|tauto].
  rewrite lookup_alter_eq, lookup_fmap, Hch. reflexivity.
Qed.

(** A timer that fires before the send can proceed is the case [select]
    takes. *)
Lemma do_select_timer (w : World) (ch : chan) (item : string) (d T : Z) (c : Channel) :
  chans w !! ch = Some c ->
  send_ready_in c = Some T ->
  Z.max 0 d < T ->
  exists w',
    do_select [CaseSend ch item; CaseAfter d] w = Some (1%nat, w') /\
    now w' = now w + Z.max 0 d /\
    chans w' !! ch = Some (elapse (Z.max 0 d) c).
Proof.
  intros Hch Hready Hlt. unfold do_select.
  change (ready_in w <$> [CaseSend ch item; CaseAfter d])
    with [ready_in w (CaseSend ch item); Some (Z.max 0 d)].
  assert (ready_in w (CaseSend ch item) = Some T) as ->
    by (cbn; rewrite Hch; exact Hready).
  cbn [earliest]. destruct (Z.leb_spec T (Z.max 0 d)); [lia|].
  eexists. split; [reflexivity|]. cbn. split; [reflexivity|].
  rewrite lookup_fmap, Hch. reflexivity.
Qed.

(** X7: when the channel has room in its buffer and its consumer is not
    waiting, [reportMitigatedCorruption] returns at once: the item is the
    last of the buffer, no time has passed and no warning is logged; when the
    channel is unbuffered and its consumer receives next in less than a
    second, the report returns at that moment, the consumer has the item,
    and no warning is logged. *)
Theorem reportMitigatedCorruption_sends (rn : RootNode) (item : string)
    (w : World) (ch : chan) (c : Channel) :
  MitigatedCorruptions rn = Some ch ->
  chans w !! ch = Some c ->
  ((length (buf c) < cap c)%nat ->
   match recvs c with d :: _ => 0 < d | [] => True end ->
   exists w',
     run (reportMitigatedCorruption rn item) w =
       Some (tt, w',
             [Ev (select_ [CaseSend ch item; CaseAfter (1 * time.Second)]) 0%nat]) /\
     now w' = now w /\
     chans w' !! ch =
       Some (mkChannel (buf c ++ [item]) (cap c) (recvs c) (received c))) /\
  (forall d rs,
     cap c = 0%nat -> buf c = [] -> recvs c = d :: rs ->
     0 <= d < 1 * time.Second ->
     exists w',
       run (reportMitigatedCorruption rn item) w =
       Some (tt, w',
             [Ev (select_ [CaseSend ch item; CaseAfter (1 * time.Second)]) 0%nat]) /\
       now w' = now w + d /\
       chans w' !! ch = Some (mkChannel [] 0 rs (received c ++ [item]))).
Proof.
  intros Hrn Hch. unfold reportMitigatedCorruption. rewrite Hrn. split.
  - intros Hroom Hwait.
    assert (Hready : send_ready_in c = Some 0).
    { unfold send_ready_in.
      destruct (Nat.ltb_spec (length (buf c)) (cap c)); [reflexivity|lia]. }
    destruct (do_select_send w ch item (1 * time.Second) 0 c Hch Hready)
      as (w' & Hsel & Hnow & Hc & _); [unfold time.Second; lia|].
    cbn -[do_select time.Second Z.mul]. rewrite Hsel. cbn.
    exists w'. split; [reflexivity|]. split; [lia|]. rewrite Hc. f_equal.
    assert (elapse 0 c = c) as ->.
    { destruct c as [b n rs got]. unfold elapse. cbn in *.
      destruct rs as [|d rs]; [reflexivity|]. cbn.
      destruct (Z.leb_spec (Z.max 0 d) 0); [lia|]. now rewrite Z.sub_0_r. }
    unfold do_send.
    destruct (Nat.ltb_spec (length (buf c)) (cap c)); [reflexivity|lia].
  - intros d rs Hcap Hbuf Hrecvs Hd.
    assert (Hready : send_ready_in c = Some d).
    { unfold send_ready_in. rewrite Hcap, Hbuf, Hrecvs. cbn. f_equal. lia. }
    destruct (do_select_send w ch item (1 * time.Second) d c Hch Hready)
      as (w' & Hsel & Hnow & Hc & _); [unfold time.Second in *; lia|].
    cbn -[do_select time.Second Z.mul]. rewrite Hsel. cbn.
    exists w'. split; [reflexivity|]. split; [exact Hnow|]. rewrite Hc. f_equal.
    destruct c as [b n rs' got]. cbn in *. subst. unfold elapse. cbn.
    destruct (Z.leb_spec (Z.max 0 d) d); [|lia]. reflexivity.
Qed.

(** A channel with one free slot, and an unbuffered channel whose consumer
    receives after half a second. *)
Lemma reportMitigatedCorruption_sends_witness :
  (exists w',
     run (reportMitigatedCorruption example_rn_chan "x")
         (example_chan_world (mkChannel ["a"] 2 [] []))
     = Some (tt, w',
             [Ev (select_ [CaseSend 0%nat "x"; CaseAfter (1 * time.Second)]) 0%nat]) /\
     now w' = 7 /\
     chans w' !! 0%nat = Some (mkChannel ["a"; "x"] 2 [] [])) /\
  (exists w',
     run (reportMitigatedCorruption example_rn_chan "x")
         (example_chan_world (mkChannel [] 0 [500000000] ["a"]))
     = Some (tt, w',
             [Ev (select_ [CaseSend 0%nat "x"; CaseAfter (1 * time.Second)]) 0%nat]) /\
     now w' = 7 + 500000000 /\
     chans w' !! 0%nat = Some (mkChannel [] 0 [] ["a"; "x"])).
Proof.
  split.
  - apply (proj1 (reportMitigatedCorruption_sends example_rn_chan "x"
             (example_chan_world (mkChannel ["a"] 2 [] [])) 0%nat
             (mkChannel ["a"] 2 [] []) eq_refl eq_refl)); [cbn; lia|exact I].
  - apply (proj2 (reportMitigatedCorruption_sends example_rn_chan "x"
             (example_chan_world (mkChannel [] 0 [500000000] ["a"])) 0%nat
             (mkChannel [] 0 [500000000] ["a"]) eq_refl eq_refl) 500000000 []);
      try reflexivity. unfold time.Second; lia.
Defined.

(** X8: when the buffer of the channel is full and its consumer receives
    next only after more than a second, [reportMitigatedCorruption] gives up
    when one second has passed: it logs the warning, the item is dropped, and
    the channel holds what it held, its consumer one second nearer to its
    next receive. *)
Theorem reportMitigatedCorruption_drops (rn : RootNode) (item : string)
    (w : World) (ch : chan) (c : Channel) (d : Z) (rs : list Z) :
  MitigatedCorruptions rn = Some ch ->
  chans w !! ch = Some c ->
  (cap c <= length (buf c))%nat ->
  recvs c = d :: rs ->
  1 * time.Second < d ->
  exists w',
    run (reportMitigatedCorruption rn item) w =
      Some (tt, w',
            [Ev (select_ [CaseSend ch item; CaseAfter (1 * time.Second)]) 1%nat;
             Ev (tlog_Printf Warn "BUG: reportCorruptItem: timeout" []) tt]) /\
    now w' = now w + 1 * time.Second /\
    chans w' !! ch =
      Some (mkChannel (buf c) (cap c) ((d - 1 * time.Second) :: rs) (received c)).
Proof.
  intros Hrn Hch Hfull Hrecvs Hd. unfold reportMitigatedCorruption. rewrite Hrn.
  assert (Hready : send_ready_in c = Some d).
  { unfold send_ready_in. rewrite Hrecvs.
    destruct (Nat.ltb_spec (length (buf c)) (cap c)); [lia|].
    f_equal. unfold time.Second in Hd. lia. }
  destruct (do_select_timer w ch item (1 * time.Second) d c Hch Hready)
    as (w' & Hsel & Hnow & Hc); [unfold time.Second in *; lia|].
  change (Z.max 0 (1 * time.Second)) with (1 * time.Second) in *.
  cbn -[do_select time.Second Z.mul]. rewrite Hsel. cbn -[time.Second Z.mul].
  exists w'. split; [reflexivity|]. split; [exact Hnow|]. rewrite Hc. f_equal.
  destruct c as [b n rs' got]. cbn in *. subst. unfold elapse. cbn -[time.Second Z.mul].
  destruct (Z.leb_spec (Z.max 0 d) (1 * time.Second));
    [unfold time.Second in *; lia|]. reflexivity.
Qed.

(** A full buffer of one slot, and a consumer that receives after three
    seconds. *)
Lemma reportMitigatedCorruption_drops_witness :
  exists w',
    run (reportMitigatedCorruption example_rn_chan "x")
        (example_chan_world (mkChannel ["a"] 1 [3000000000] []))
    = Some (tt, w',
            [Ev (select_ [CaseSend 0%nat "x"; CaseAfter (1 * time.Second)]) 1%nat;
             Ev (tlog_Printf Warn "BUG: reportCorruptItem: timeout" []) tt]) /\
    now w' = 7 + 1 * time.Second /\
    chans w' !! 0%nat =
      Some (mkChannel ["a"] 1 [3000000000 - 1 * time.Second] []).
Proof.
  apply (reportMitigatedCorruption_drops example_rn_chan "x"
           (example_chan_world (mkChannel ["a"] 1 [3000000000] [])) 0%nat
           (mkChannel ["a"] 1 [3000000000] []) 3000000000 [] eq_refl eq_refl).
  - cbn. lia.
  - reflexivity.
  - reflexivity.
Defined.

(** ** [openWriteOnlyFile]: descriptors *)

(** A map that has every key of a range has at least as many keys, and no
    other key when it has as many. *)
Lemma range_in_map (n : nat) (open : gmap Z nat) (fd : Z) :
  (forall x, fd <= x < fd + Z.of_nat n -> is_Some (open !! x)) ->
  (n <= size open)%nat /\
  (size open = n -> forall y, is_Some (open !! y) -> fd <= y < fd + Z.of_nat n).
Proof.
  revert open fd. induction n as [|n IH]; intros open fd Hall.
  - split; [lia|]. intros Hsize y [v Hy].
    apply map_size_empty_inv in Hsize. subst open.
    rewrite lookup_empty in Hy. discriminate.
  - assert (Hfd : is_Some (open !! fd)) by (apply Hall; lia).
    destruct (IH (delete fd open) (fd + 1)) as [Hle Heq].
    { intros x Hx. rewrite lookup_delete_ne by lia. apply Hall. lia. }
    rewrite map_size_delete_Some in Hle, Heq by exact Hfd.
    assert (size open <> 0%nat).
    { intros H0. apply map_size_empty_inv in H0. subst open.
      destruct Hfd as [v Hv]. rewrite lookup_empty in Hv. discriminate. }
    split; [lia|]. intros Hsize y Hy.
    destruct (decide (y = fd)) as [->|Hne]; [lia|].
    assert (fd + 1 <= y < fd + 1 + Z.of_nat n); [|lia].
    apply Heq; [lia|]. rewrite lookup_delete_ne by congruence. exact Hy.
Qed.

Lemma lowest_free_spec (open : gmap Z nat) (fuel : nat) (fd : Z) :
  (forall x, fd <= x < lowest_free open fuel fd -> is_Some (open !! x)) /\
  fd <= lowest_free open fuel fd <= fd + Z.of_nat fuel /\
  (lowest_free open fuel fd < fd + Z.of_nat fuel ->
   open !! lowest_free open fuel fd = None).
Proof.
  revert fd. induction fuel as [|fuel IH]; intros fd; cbn [lowest_free].
  - split; [intros x Hx; lia|]. split; lia.
  - destruct (open !! fd) as [v|] eqn:Hfd.
    + destruct (IH (fd + 1)) as (Hall & Hrange & Hfree).
      split; [|split; [lia|intros Hlt; apply Hfree; lia]].
      intros x Hx. destruct (decide (x = fd)) as [->|Hne]; [eauto|].
      apply Hall. lia.
    + split; [intros x Hx; lia|]. split; [lia|]. intros _. exact Hfd.
Qed.

(** The descriptor an open allocates is not open. *)
Lemma fresh_fd_free (w : World) : fds w !! fresh_fd w = None.
Proof.
  unfold fresh_fd.
  destruct (lowest_free_spec (fds w) (size (fds w)) 0) as (Hall & Hrange & Hfree).
  destruct (Z.ltb_spec (lowest_free (fds w) (size (fds w)) 0)
              (0 + Z.of_nat (size (fds w)))) as [Hlt|Hge]; [apply Hfree, Hlt|].
  assert (Heq : lowest_free (fds w) (size (fds w)) 0 = Z.of_nat (size (fds w)))
    by lia.
  rewrite Heq in Hall |- *.
  destruct (range_in_map (size (fds w)) (fds w) 0) as [_ Hin];
    [intros x Hx; apply Hall; lia|].
  destruct (fds w !! Z.of_nat (size (fds w))) as [v|] eqn:Hv; [|reflexivity].
  specialize (Hin eq_refl _ (ex_intro _ v Hv)). lia.
Qed.

Lemma do_Openat_fresh (dirfd : Z) (path : string) (flags : Z) (w w' : World)
    (fd : Z) :
  do_Openat dirfd path flags w = ((fd, None), w') -> fds w !! fd = None.
Proof.
  unfold do_Openat, next_fault.
  destruct (faults w) as [|[e|] fs]; cbn; try discriminate;
    (destruct (dirents w !! (dirfd, path)) as [ino|]; cbn; [|discriminate]);
    (destruct (inodes w !! ino) as [m|]; cbn; [|discriminate]);
    (destruct (may_open m flags); [|discriminate]);
    intros [= <- _].
  - apply fresh_fd_free.
  - apply (fresh_fd_free (set_faults fs w)).
Qed.

Lemma do_Close_fds (fd : Z) (w w' : World) (err : option error) :
  do_Close fd w = (err, w') -> fds w' = delete fd (fds w).
Proof.
  unfold do_Close, next_fault.
  destruct (faults w) as [|[e|] fs]; cbn;
    try (intros [= <- <-]; reflexivity);
    (destruct (fds w !! fd) eqn:Hfd; intros [= <- <-]; cbn;
       [reflexivity|symmetry; apply delete_id; exact Hfd]).
Qed.

(** X9: called while the caller alone holds the lock, as a reader,
    [openWriteOnlyFile] returns, and leaks no descriptor: after an error the
    open descriptors are those before the call, the one of the write-only
    open is closed again; after a success the only new descriptor is the one
    returned, which was not open before and refers to the file that [cName]
    names in [dirfd].  The directory entries and the state of the lock are as
    before. *)
Theorem openWriteOnlyFile_descriptors (rn : RootNode) (dirfd : Z)
    (cName : string) (newFlags : Z) (w : World) :
  rwlock w = mkRWMutex 1 false ->
  exists (rwFd : Z) (err : option error) (w' : World) (tr : list Event),
    run (openWriteOnlyFile rn dirfd cName newFlags) w = Some ((rwFd, err), w', tr) /\
    rwlock w' = rwlock w /\ dirents w' = dirents w /\
    match err with
    | Some _ => fds w' = fds w
    | None => exists ino,
        dirents w !! (dirfd, cName) = Some ino /\
        fds w !! rwFd = None /\
        fds w' = <[rwFd := ino]> (fds w)
    end.
Proof.
  intros Hlock. unfold openWriteOnlyFile. run_step.
  destruct (do_Openat dirfd cName (Z.lor syscall.O_WRONLY syscall.O_NOFOLLOW) w)
    as [[woFd [e1|]] w1] eqn:Hopen;
    pose proof (do_Openat_spec _ _ _ _ _ _ _ Hopen) as (Hi1 & Hd1 & Hl1 & Hfds1).
  { run_step. do 4 eexists. split; [reflexivity|]. cbn. tauto. }
  pose proof (do_Openat_fresh _ _ _ _ _ _ Hopen) as Hfresh1.
  destruct Hfds1 as (ino & Hname & Hfds1).
  assert (Hclosed : delete woFd (fds w1) = fds w)
    by (rewrite Hfds1; apply delete_insert_id, Hfresh1).
  run_step.
  destruct (do_Fstat woFd w1) as [[st [e2|]] w2] eqn:Hstat;
    pose proof (do_Fstat_spec _ _ _ _ _ Hstat) as (Hi2 & Hd2 & Hl2 & Hfds2 & _).
  { run_step. destruct (do_Close woFd w2) as [ec w3] eqn:Hclose. run_step.
    pose proof (do_Close_fds _ _ _ _ Hclose) as Hfds3.
    apply do_Close_spec in Hclose as (_ & Hd3 & Hl3).
    do 4 eexists. split; [reflexivity|]. cbn.
    repeat split; congruence. }
  run_step.
  destruct (negb (Z.land (uint32 (Mode st)) perm_0400 =? 0)).
  { run_step. destruct (do_Close woFd w2) as [ec w3] eqn:Hclose. run_step.
    pose proof (do_Close_fds _ _ _ _ Hclose) as Hfds3.
    apply do_Close_spec in Hclose as (_ & Hd3 & Hl3).
    do 4 eexists. split; [reflexivity|]. cbn.
    repeat split; congruence. }
  run_step.
  assert (Hl : rwlock w2 = mkRWMutex 1 false) by congruence.
  rewrite Hl. cbn [do_rwlock readers writer mbind option_bind]. run_step.
  set (wl := set_rwlock _ (set_rwlock _ w2)).
  assert (Hfdsl : fds wl = fds w1) by (subst wl; exact Hfds2).
  assert (Hdl : dirents wl = dirents w) by (subst wl; cbn; congruence).
  destruct (do_Fchmod woFd (Z.lor (uint32 (Mode st)) perm_0400) wl)
    as [[e3|] w3] eqn:Hrelax;
    pose proof (do_Fchmod_spec _ _ _ _ _ Hrelax) as (Hd3 & Hl3 & Hfds3 & _).
  { run_step. rewrite Hl3. cbn.
    match goal with |- context [do_Close woFd ?x] =>
      destruct (do_Close woFd x) as [ec w4] eqn:Hclose end.
    run_step. pose proof (do_Close_fds _ _ _ _ Hclose) as Hfds4.
    apply do_Close_spec in Hclose as (_ & Hd4 & Hl4).
    do 4 eexists. split; [reflexivity|]. cbn in *.
    repeat split; congruence. }
  run_step.
  destruct (do_Openat dirfd cName newFlags w3) as [[rwFd err] w4] eqn:Hopen2.
  pose proof (do_Openat_spec _ _ _ _ _ _ _ Hopen2) as (_ & Hd4 & Hl4 & Hfds4).
  run_step.
  destruct (do_Fchmod woFd (uint32 (Mode st)) w4) as [e5 w5] eqn:Hrevert.
  pose proof (do_Fchmod_spec _ _ _ _ _ Hrevert) as (Hd5 & Hl5 & Hfds5 & _).
  assert (Hrun :
    forall (wx w6 : World) (ec : option error),
      fds wx = fds w5 -> dirents wx = dirents w5 ->
      rwlock wx = mkRWMutex 1 false ->
      do_Close woFd wx = (ec, w6) ->
      rwlock w6 = rwlock w /\ dirents w6 = dirents w /\
      match err with
      | Some _ => fds w6 = fds w
      | None => exists ino0,
          dirents w !! (dirfd, cName) = Some ino0 /\
          fds w !! rwFd = None /\ fds w6 = <[rwFd := ino0]> (fds w)
      end).
  { intros wx w6 ec Hfx Hdx Hlx Hclose.
    pose proof (do_Close_fds _ _ _ _ Hclose) as Hfds6.
    apply do_Close_spec in Hclose as (_ & Hd6 & Hl6). cbn in *.
    split; [congruence|]. split; [congruence|].
    destruct err as [e4|].
    - rewrite Hfds6, Hfx, Hfds5, Hfds4, Hfds3, Hfdsl. exact Hclosed.
    - destruct Hfds4 as (ino' & Hname' & Hfds4).
      pose proof (do_Openat_fresh _ _ _ _ _ _ Hopen2) as Hfresh2.
      rewrite Hfds3, Hfdsl, Hfds1 in Hfresh2.
      assert (Hne : rwFd <> woFd)
        by (intros ->; rewrite lookup_insert_eq in Hfresh2; discriminate).
      rewrite lookup_insert_ne in Hfresh2 by congruence.
      exists ino'. split; [congruence|]. split; [exact Hfresh2|].
      rewrite Hfds6, Hfx, Hfds5, Hfds4, Hfds3, Hfdsl.
      rewrite delete_insert_ne by congruence. now rewrite Hclosed. }
  destruct e5 as [e5|]; run_step; rewrite Hl5, Hl4, Hl3; subst wl; cbn;
    match goal with |- context [do_Close woFd ?x] =>
      destruct (do_Close woFd x) as [ec w6] eqn:Hclose end;
    run_step; do 4 eexists; (split; [reflexivity|]);
    refine (Hrun _ _ _ _ _ _ Hclose); reflexivity.
Qed.

(** A file without read permission, with nothing scripted to fail. *)
Lemma openWriteOnlyFile_descriptors_witness :
  exists (rwFd : Z) (err : option error) (w' : World) (tr : list Event),
    run (openWriteOnlyFile example_rn 3 "f" syscall.O_RDWR) (example_world 32896 [])
      = Some ((rwFd, err), w', tr) /\
    rwlock w' = rwlock (example_world 32896 []) /\
    dirents w' = dirents (example_world 32896 []) /\
    match err with
    | Some _ => fds w' = fds (example_world 32896 [])
    | None => exists ino,
        dirents (example_world 32896 []) !! (3, "f") = Some ino /\
        fds (example_world 32896 []) !! rwFd = None /\
        fds w' = <[rwFd := ino]> (fds (example_world 32896 []))
    end.
Proof.
  apply (openWriteOnlyFile_descriptors example_rn 3 "f" syscall.O_RDWR
           (example_world 32896 [])).
  reflexivity.
Defined.

(** ** [openWriteOnlyFile]: the workaround *)

(** The calls of the backing store when nothing is scripted to fail. *)
Lemma do_Openat_ok (dirfd : Z) (path : string) (flags : Z) (w : World)
    (ino : nat) (m : Z) :
  faults w = [] ->
  dirents w !! (dirfd, path) = Some ino ->
  inodes w !! ino = Some m ->
  do_Openat dirfd path flags w =
    if may_open m flags
    then ((fresh_fd w, None), set_fds (<[fresh_fd w := ino]> (fds w)) w)
    else ((-1, Some syscall.EACCES), w).
Proof.
  intros Hf Hd Hi. unfold do_Openat, next_fault. rewrite Hf. cbn.
  rewrite Hd. cbn. rewrite Hi. cbn. reflexivity.
Qed.

Lemma do_Fstat_ok (fd : Z) (w : World) (ino : nat) (m : Z) :
  faults w = [] ->
  fds w !! fd = Some ino ->
  inodes w !! ino = Some m ->
  do_Fstat fd w = ((mkStat m, None), w).
Proof.
  intros Hf Hd Hi. unfold do_Fstat, next_fault. rewrite Hf. cbn.
  rewrite Hd. cbn. rewrite Hi. reflexivity.
Qed.

Lemma do_Fchmod_ok (fd mode : Z) (w : World) (ino : nat) (m : Z) :
  faults w = [] ->
  fds w !! fd = Some ino ->
  inodes w !! ino = Some m ->
  do_Fchmod fd mode w =
    (None, set_inodes (<[ino := chmod_mode m mode]> (inodes w)) w).
Proof.
  intros Hf Hd Hi. unfold do_Fchmod, next_fault. rewrite Hf. cbn.
  rewrite Hd. cbn. rewrite Hi. reflexivity.
Qed.

Lemma do_Close_ok (fd : Z) (w : World) (ino : nat) :
  faults w = [] ->
  fds w !! fd = Some ino ->
  do_Close fd w = (None, set_fds (delete fd (fds w)) w).
Proof.
  intros Hf Hd. unfold do_Close, next_fault. rewrite Hf. cbn.
  rewrite Hd. reflexivity.
Qed.

Lemma may_open_relaxed (m flags : Z) :
  Z.land m perm_0200 <> 0 -> may_open (Z.lor m perm_0400) flags = true.
Proof.
  intros Hw. unfold may_open.
  assert ((Z.land (Z.lor m perm_0400) perm_0400 =? 0) = false) as ->.
  { apply Z.eqb_neq. intros H0.
    apply (f_equal (fun z => Z.testbit z 8)) in H0.
    rewrite Z.land_spec, Z.lor_spec, Z.bits_0 in H0.
    change (Z.testbit perm_0400 8) with true in H0.
    rewrite orb_true_r in H0. discriminate. }
  assert ((Z.land (Z.lor m perm_0400) perm_0200 =? 0) = false) as ->.
  { apply Z.eqb_neq. intros H0. apply Hw.
    apply Z.bits_inj'. intros n Hn.
    apply (f_equal (fun z => Z.testbit z n)) in H0.
    rewrite Z.land_spec, Z.lor_spec, Z.bits_0 in H0.
    rewrite Z.land_spec, Z.bits_0.
    destruct (Z.testbit m n); [|reflexivity]. exact H0. }
  cbn. now destruct (_ =? _), (_ =? _).
Qed.

Lemma may_open_write_only (m : Z) :
  Z.land m perm_0200 <> 0 ->
  may_open m (Z.lor syscall.O_WRONLY syscall.O_NOFOLLOW) = true.
Proof.
  intros Hw. unfold may_open.
  change (Z.land (Z.lor syscall.O_WRONLY syscall.O_NOFOLLOW) syscall.O_ACCMODE)
    with 1.
  change (1 =? syscall.O_WRONLY) with true.
  change (1 =? syscall.O_RDONLY) with false.
  apply Z.eqb_neq in Hw. rewrite Hw. reflexivity.
Qed.

Lemma may_open_unreadable (m flags : Z) :
  Z.land m perm_0400 = 0 ->
  Z.land flags syscall.O_ACCMODE <> syscall.O_WRONLY ->
  may_open m flags = false.
Proof.
  intros Hr Hacc. unfold may_open.
  apply Z.eqb_neq in Hacc. rewrite Hacc, Hr. reflexivity.
Qed.



(** ** [openWriteOnlyFile]: the result *)

(** X11: what [openWriteOnlyFile] returns is decided by its opens alone.  It
    makes one open or two.  When the write-only open fails, it returns
    descriptor 0 and the error of that open; when it makes no second open, it
    returns descriptor 0 and an error; when it makes the second open, it
    returns what that open returned, descriptor and error, whatever the
    revert of the permissions and the close of the first descriptor report
    afterwards. *)
Theorem openWriteOnlyFile_result (rn : RootNode) (dirfd : Z) (cName : string)
    (newFlags : Z) (w w' : World) (r : Z * option error) (tr : list Event) :
  run (openWriteOnlyFile rn dirfd cName newFlags) w = Some (r, w', tr) ->
  match Openat_results tr with
  | [(_, Some e)] => r = (0, Some e)
  | [(_, None)] => exists e, r = (0, Some e)
  | [(_, None); r2] => r = r2
  | _ => False
  end.
Proof.
  unfold openWriteOnlyFile. run_step.
  destruct (do_Openat dirfd cName (Z.lor syscall.O_WRONLY syscall.O_NOFOLLOW) w)
    as [[woFd [e1|]] w1].
  { run_step. intros [= <- <- <-]. reflexivity. }
  run_step.
  destruct (do_Fstat woFd w1) as [[st [e2|]] w2].
  { run_step. destruct (do_Close woFd w2) as [ec w3]. run_step.
    intros [= <- <- <-]. cbn. eauto. }
  run_step.
  destruct (negb (Z.land (uint32 (Mode st)) perm_0400 =? 0)).
  { run_step. destruct (do_Close woFd w2) as [ec w3]. run_step.
    intros [= <- <- <-]. cbn. eauto. }
  run_step.
  destruct (do_rwlock RUnlock (rwlock w2)) as [l1|]; [|discriminate]. run_step.
  destruct (do_rwlock Lock l1) as [l2|]; [|discriminate]. run_step.
  destruct (do_Fchmod woFd (Z.lor (uint32 (Mode st)) perm_0400) _) as [[e3|] w3].
  { run_step.
    destruct (do_rwlock Unlock (rwlock w3)) as [l3|]; [|discriminate]. run_step.
    destruct (do_rwlock RLock l3) as [l4|]; [|discriminate]. run_step.
    destruct (do_Close woFd _) as [ec w4]. run_step.
    intros [= <- <- <-]. cbn. eauto. }
  run_step.
  destruct (do_Openat dirfd cName newFlags w3) as [[rwFd err] w4]. run_step.
  destruct (do_Fchmod woFd (uint32 (Mode st)) w4) as [[e5|] w5]; run_step;
    (destruct (do_rwlock Unlock (rwlock w5)) as [l3|]; [|discriminate]); run_step;
    (destruct (do_rwlock RLock l3) as [l4|]; [|discriminate]); run_step;
    destruct (do_Close woFd _) as [ec w6]; run_step;
    intros [= <- <- <-]; reflexivity.
Qed.

(** The revert and the close fail, and the descriptor of the second open is
    returned all the same. *)
Lemma openWriteOnlyFile_result_witness :
  exists (w' : World) (tr : list Event),
    run (openWriteOnlyFile example_rn 3 "f" syscall.O_RDWR)
        (example_world 32896 [None; None; None; None;
                              Some (Errno 5); Some (Errno 5)])
      = Some ((1, None), w', tr) /\
    match Openat_results tr with
    | [(_, Some e)] => (1, @None error) = (0, Some e)
    | [(_, None)] => exists e, (1, @None error) = (0, Some e)
    | [(_, None); r2] => (1, @None error) = r2
    | _ => False
    end.
Proof.
  do 2 eexists.
  refine ((fun H => conj H
             (openWriteOnlyFile_result example_rn 3 "f" syscall.O_RDWR
                (example_world 32896 [None; None; None; None;
                                      Some (Errno 5); Some (Errno 5)])
                _ (1, None) _ H)) _).
  vm_compute. reflexivity.
Defined.

(** ** [openWriteOnlyFile]: the other opens wait *)

Lemma step_opens_locked (s s' : World * list Thread) :
  Forall (fun t => opens_locked (held t) (code t)) (snd s) ->
  step s s' ->
  Forall (fun t => opens_locked (held t) (code t)) (snd s').
Proof.
  intros Hall Hstep.
  destruct Hstep as [w w' pool j t X c k r Hj Hcode Hexec]. cbn [fst snd] in *.
  apply Forall_insert; [exact Hall|]. cbn [held code].
  rewrite Forall_lookup in Hall. specialize (Hall j t Hj).
  rewrite Hcode in Hall. apply Hall.
Qed.

Lemma rtc_opens_locked (s s' : World * list Thread) :
  Forall (fun t => opens_locked (held t) (code t)) (snd s) ->
  rtc step s s' ->
  Forall (fun t => opens_locked (held t) (code t)) (snd s').
Proof.
  intros Hall Hsteps. induction Hsteps as [|s1 s2 s3 Hstep _ IH]; [exact Hall|].
  apply IH. eapply step_opens_locked; eassumption.
Qed.

Lemma openWriteOnlyFile_opens_locked (rn : RootNode) (dirfd : Z)
    (cName : string) (newFlags : Z) :
  opens_locked Shared (openWriteOnlyFile rn dirfd cName newFlags).
Proof.
  unfold openWriteOnlyFile.
  repeat (cbn -[Z.land Z.lor Z.eqb uint32];
          match goal with
          | |- _ /\ _ => split
          | |- forall _, _ => intros ?
          | |- True => exact I
          | |- _ <> _ => discriminate
          | |- context [match ?x with _ => _ end] => destruct x
          end).
Qed.


